(** * Demo_Optimization: the notebook's functions and the solver it calls

    The notebook defines a handful of small Python functions (a profit
    curve, two cost functions, an area, a portfolio reward) and three
    constraint dictionaries, each pairing a function ['fun'] with its
    hand-computed derivative ['jac'], and hands them to a constrained
    minimizer.  The functions are embedded here over the real numbers:
    Python's float arithmetic is read as exact arithmetic, a sequence is a
    [list R], and indexing past the end (an [IndexError] in Python) is
    [None].  The minimizer follows, as its specification designs it. *)

From Stdlib Require Import String Bool Reals Lra Lia List.
Import ListNotations.
Open Scope bool_scope.
Open Scope R_scope.

(** ** Python sequences *)

(** [xy[i]]: raises on an index past the end. *)
Definition index (xs : list R) (i : nat) : option R := nth_error xs i.

(** [sum(s)]: the built-in starts from 0 and adds from the left. *)
Definition sum (s : list R) : R := fold_left Rplus s 0.

Definition bind {A B : Type} (m : option A) (k : A -> option B) : option B :=
  match m with
  | Some a => k a
  | None => None
  end.

Notation "x <- m ;; k" := (bind m (fun x => k))
  (at level 61, m at next level, right associativity).

(** A constraint dictionary as the notebook builds it:
    [{'type': ..., 'fun': ..., 'jac': ...}]. *)
Record ConstraintDict := mkConstraintDict {
  type : string;
  fun_ : list R -> option (list R);
  jac : list R -> option (list (list R))
}.

(** ** Simple minimization *)

(** [def profit(x): return x - x**2 / 15] *)
Definition profit (x : R) : R := x - x ^ 2 / 15.

(** The objective handed to [minimize]: [lambda x: -profit(x)]. *)
Definition neg_profit (x : R) : R := - profit x.

(** ** Linear programming: the factory output example *)

(** The problem [linprog(c, A_ub=A, b_ub=b, bounds=...)] stands for:
    minimize [c @ x] subject to [A_ub @ x <= b_ub], row by row, and to one
    (lower, upper) pair per variable, [np.inf] being [None]. *)
Fixpoint dot (u w : list R) : R :=
  match u, w with
  | a :: u', e :: w' => a * e + dot u' w'
  | _, _ => 0
  end.

Definition in_range (p : option R * option R) (a : R) : Prop :=
  match fst p with Some l => l <= a | None => True end /\
  match snd p with Some u => a <= u | None => True end.

Definition lp_feasible (A_ub : list (list R)) (b_ub : list R)
    (bounds : list (option R * option R)) (x : list R) : Prop :=
  Forall2 (fun row bi => dot row x <= bi) A_ub b_ub /\
  Forall2 in_range bounds x.

Module Factory.

(** [c = [-5, -8]   # negative signs because linprog minimizes our objective] *)
Definition c : list R := [-5; -8].

(** [A = [[1, 1], [2, 3]]] and [b = [40, 100]] *)
Definition A : list (list R) := [[1; 1]; [2; 3]].
Definition b : list R := [40; 100].

(** [p1_bounds = (0, np.inf)] and [p2_bounds = (0, np.inf)] *)
Definition p1_bounds : option R * option R := (Some 0, None).
Definition p2_bounds : option R * option R := (Some 0, None).

(** The [bounds] argument of the call, [[p1_bounds, p2_bounds]]. *)
Definition bounds : list (option R * option R) := [p1_bounds; p2_bounds].

(** The lower edges of the two shaded regions of the plot,
    [fill_between(x, 40 - x, 40, ...)] and
    [fill_between(x, (100 - 2*x)/3, 40, ...)], and their common upper
    edge. *)
Definition red_edge (x : R) : R := 40 - x.
Definition blue_edge (x : R) : R := (100 - 2 * x) / 3.
Definition top_edge : R := 40.

End Factory.

(** ** Nonlinear optimization: the fencing problem *)

Module Fencing.

(** [def cost(xy): return 7*2*xy[0] + 4*2*xy[1]] *)
Definition cost (xy : list R) : option R :=
  x <- index xy 0 ;;
  y <- index xy 1 ;;
  Some (7 * 2 * x + 4 * 2 * y).

(** [def area(xy): return xy[0]*xy[1]] *)
Definition area (xy : list R) : option R :=
  x <- index xy 0 ;;
  y <- index xy 1 ;;
  Some (x * y).

(** [{'type': 'ineq', 'fun': lambda xy: [area(xy) - 100],
      'jac': lambda xy: [[xy[1], xy[0]]]}] *)
Definition ineq_cons : ConstraintDict := {|
  type := "ineq"%string;
  fun_ := fun xy => a <- area xy ;; Some [a - 100];
  jac := fun xy => y <- index xy 1 ;; x <- index xy 0 ;; Some [[y; x]]
|}.

(** The initial guess and the bounds of the [minimize] call, [[1, 1]] and
    [[(0, np.inf), (0, np.inf)]]; [np.inf] is [None]. *)
Definition x0 : list R := [1; 1].
Definition bounds : list (option R * option R) :=
  [(Some 0, None); (Some 0, None)].

End Fencing.

(** ** Portfolio example *)

Module Portfolio.

Definition r : list R := [12 / 10; 18 / 10; 2].
Definition v : list R := [1 / 10; 2 / 10; 5 / 10].
Definition v_total : R := 1 / 10.
Definition gamma : R := 1.

(** [def reward(s)]: the expected return minus [gamma] times the risk. *)
Definition reward (s : list R) : option R :=
  r0 <- index r 0 ;; s0 <- index s 0 ;;
  r1 <- index r 1 ;; s1 <- index s 1 ;;
  r2 <- index r 2 ;; s2 <- index s 2 ;;
  let positive := r0 * s0 + r1 * s1 + r2 * s2 in
  v0 <- index v 0 ;; v1 <- index v 1 ;; v2 <- index v 2 ;;
  let risk := v0 * s0 ^ 2 + v1 * s1 ^ 2 + v2 * s2 ^ 2 + v_total * sum s ^ 2 in
  Some (positive - gamma * risk).

(** [{'type': 'ineq', 'fun': lambda s: [10 - sum(s)],
      'jac': lambda s: [[-1.0, -1.0, -1.0]]}] *)
Definition ineq_cons : ConstraintDict := {|
  type := "ineq"%string;
  fun_ := fun s => Some [10 - sum s];
  jac := fun _ => Some [[-1; -1; -1]]
|}.

(** [[3, 3, 3]] and [[(0,10), (0,10), (0,10)]]. *)
Definition x0 : list R := [3; 3; 3].
Definition bounds : list (option R * option R) :=
  [(Some 0, Some 10); (Some 0, Some 10); (Some 0, Some 10)].

End Portfolio.

(** ** Analytical optimization with constraints: the Lagrange example *)

Module Lagrange.

(** [def cost(xy): return xy[0]**2 + 4*xy[1]] *)
Definition cost (xy : list R) : option R :=
  x <- index xy 0 ;;
  y <- index xy 1 ;;
  Some (x ^ 2 + 4 * y).

(** [def constraint(xy): return xy[0] + xy[1]] *)
Definition constraint (xy : list R) : option R :=
  x <- index xy 0 ;;
  y <- index xy 1 ;;
  Some (x + y).

(** The notebook keeps the name [ineq_cons] although the type is ['eq']:
    [{'type': 'eq', 'fun': lambda xy: [constraint(xy) - 6],
      'jac': lambda xy: [[1, 1]]}] *)
Definition ineq_cons : ConstraintDict := {|
  type := "eq"%string;
  fun_ := fun xy => c <- constraint xy ;; Some [c - 6];
  jac := fun _ => Some [[1; 1]]
|}.

(** [[1, 1]]; the call passes no bounds. *)
Definition x0 : list R := [1; 1].

End Lagrange.

(** ** Derivatives of vector functions *)

(** [x] with its [i]-th component replaced by [t]. *)
Fixpoint set_nth (i : nat) (t : R) (x : list R) : list R :=
  match x, i with
  | [], _ => []
  | _ :: xs, O => t :: xs
  | a :: xs, S k => a :: set_nth k t xs
  end.

(** The [j]-th output of [f] at [x]. *)
Definition component (f : list R -> option (list R)) (j : nat) (x : list R) : R :=
  match f x with
  | Some fx => nth j fx 0
  | None => 0
  end.

(** [J] is the Jacobian of [f] at [x]: both are defined there, [J x] has one
    row per output of [f] and one column per variable, and entry [(j, i)] is
    the partial derivative of output [j] with respect to variable [i]. *)
Definition is_jacobian_at
    (f : list R -> option (list R)) (J : list R -> option (list (list R)))
    (x : list R) : Prop :=
  exists fx Jx,
    f x = Some fx /\ J x = Some Jx /\
    length Jx = length fx /\
    (forall row, In row Jx -> length row = length x) /\
    forall j i, (j < length fx)%nat -> (i < length x)%nat ->
      derivable_pt_lim (fun t => component f j (set_nth i t x))
                       (nth i x 0) (nth i (nth j Jx []) 0).

Definition jac_exact (c : ConstraintDict) (x : list R) : Prop :=
  is_jacobian_at (fun_ c) (jac c) x.

(** * The constrained minimizer behind [minimize(..., method='SLSQP')]

  The notebook only calls the solver; its code belongs to the numerical
  library and is not part of the repository.  The module below is the
  design of section 4.1 of the specification: the data model, the checks
  made before the first iteration, the iteration loop with its budget and
  the assembly of the result are written out; the numerical kernel (the
  quadratic subproblem, the line search, the Hessian update, the merit
  function) is an interface, [Kernel], that the theorems constrain only
  through the sentences the specification gives about it.  Numbers are
  exact reals.  A step is usable when the subproblem has a solution, the
  step length passes the sufficient-decrease test along it and the
  equality residual does not grow; where the specification speaks of a
  subproblem that cannot be solved, of no feasible descent direction and
  of an equality residual that fails to shrink, the model has one failure,
  raised after the retry on the regularized approximation. *)

Module SQP.

(** Modelled from the spec: the data model of section 3 (the solver is
    missing from the sources).  A bound that is absent is [None], never a
    large number. *)
Definition DecisionVector := list R.

(** Modelled from the spec: a (lower, upper) pair of the missing solver,
    each side possibly absent. *)
Definition Bound := (option R * option R)%type.

(** Modelled from the spec: one bound per decision variable (missing
    solver). *)
Definition Bounds := list Bound.

(** Modelled from the spec: the tag of a constraint (missing solver). *)
Inductive ConstraintKind := EQUALITY | INEQUALITY.

(** Modelled from the spec: a constraint is a vector-valued function,
    tagged, paired with its Jacobian (missing solver). *)
Record Constraint := mkConstraint {
  kind : ConstraintKind;
  value : DecisionVector -> list R;
  jacobian : DecisionVector -> list (list R)
}.

(** Modelled from the spec: a scalar objective plus, optionally, its
    analytic gradient (missing solver). *)
Record Objective := mkObjective {
  objective : DecisionVector -> R;
  gradient : option (DecisionVector -> list R)
}.

(** Modelled from the spec: the termination reasons, success and the four
    error kinds of section 7 (missing solver). *)
Inductive Termination :=
| CONVERGED
| INVALID_DIMENSION
| INFEASIBLE_START
| SINGULAR_SUBPROBLEM
| MAX_ITERATIONS_EXCEEDED.

(** Modelled from the spec: the final vector, the objective value there, a
    success flag, an iteration count and a termination reason (missing
    solver). *)
Record OptimizationResult := mkResult {
  x : DecisionVector;
  fun_value : R;
  success : bool;
  nit : nat;
  message : Termination
}.

(** Modelled from the spec: the call signature of section 6 (missing
    solver). *)
Record Input := mkInput {
  obj : Objective;
  constraints : list Constraint;
  bounds : Bounds;
  x0 : DecisionVector;
  tol : R;
  max_iter : nat
}.

(** Modelled from the spec: the numerical kernel of the missing solver, the
    parts of the algorithm the specification names but leaves open. *)
Record Kernel := mkKernel {
  Hessian : Type;
  (** the initial Hessian approximation for a problem *)
  hessian_init : Input -> Hessian;
  (** the gradient approximation used when no analytic one is supplied *)
  approx_gradient : (DecisionVector -> R) -> DecisionVector -> list R;
  (** the quadratic subproblem at a point: a step direction and multiplier
      estimates, or [None] when it cannot be solved *)
  qp_solve : Hessian -> Input -> DecisionVector ->
             option (DecisionVector * list R);
  (** a small multiple of the identity added to the approximation *)
  regularize : Hessian -> Hessian;
  (** the chosen merit function *)
  merit : Input -> DecisionVector -> R;
  (** the step length the line search proposes along a direction *)
  line_search : Input -> DecisionVector -> DecisionVector -> R;
  (** the slope of the merit function at a point along a direction, and the
      constant of the sufficient-decrease test *)
  slope : Input -> DecisionVector -> DecisionVector -> R;
  c1 : R;
  (** the BFGS update from the change in iterate and in gradient *)
  bfgs_update : Hessian -> list R -> list R -> Hessian
}.

(** ** Comparisons and vectors *)

(** Modelled from the spec: the comparisons of the missing solver, on
    exact reals. *)
Definition Rleb (a b : R) : bool := if Rle_dec a b then true else false.

(** Modelled from the spec: the update of the iterate in the missing
    solver, [x + a * d] component by component; a direction shorter than
    [x] leaves the remaining components where they are. *)
Fixpoint axpy (a : R) (d x : list R) : list R :=
  match x, d with
  | xi :: xs, di :: ds => (xi + a * di) :: axpy a ds xs
  | _, _ => x
  end.

(** Modelled from the spec: the change between two vectors of the missing
    solver, [u - w]. *)
Definition vsub (u w : list R) : list R := axpy (-1) w u.

(** Modelled from the spec: near zero, below tolerance (missing solver):
    every component is at most [t] in absolute value. *)
Definition small (t : R) (u : list R) : bool :=
  forallb (fun a => Rleb (Rabs a) t) u.

(** ** Checks made before the first iteration *)

(** Modelled from the spec: the dimension check of the missing solver.
    The bounds list, the supplied gradient and every row of every Jacobian
    have the length of the initial vector, and a Jacobian has one row per
    constraint value. *)
Definition dims_ok (inp : Input) : bool :=
  let n := length (x0 inp) in
  (length (bounds inp) =? n)%nat &&
  match gradient (obj inp) with
  | Some g => (length (g (x0 inp)) =? n)%nat
  | None => true
  end &&
  forallb (fun c =>
             (length (jacobian c (x0 inp)) =? length (value c (x0 inp)))%nat &&
             forallb (fun row => (length row =? n)%nat) (jacobian c (x0 inp)))
          (constraints inp).

(** Modelled from the spec: the invariant of a bound of the missing
    solver, lower <= upper. *)
Definition bound_ok (b : Bound) : bool :=
  match b with
  | (Some l, Some u) => Rleb l u
  | _ => true
  end.

(** Modelled from the spec: the nearest value within one bound (missing
    solver). *)
Definition clip (b : Bound) (a : R) : R :=
  let a' := match fst b with Some l => Rmax l a | None => a end in
  match snd b with Some u => Rmin u a' | None => a' end.

(** Modelled from the spec: an initial guess that violates the bounds is
    projected onto them before the first iteration (missing solver). *)
Fixpoint project (bs : Bounds) (v : DecisionVector) : DecisionVector :=
  match bs, v with
  | b :: bs', a :: v' => clip b a :: project bs' v'
  | _, _ => v
  end.

(** ** Convergence *)

(** Modelled from the spec: the objective's gradient in the missing
    solver, analytic if supplied, approximated if absent. *)
Definition grad (K : Kernel) (inp : Input) (v : DecisionVector) : list R :=
  match gradient (obj inp) with
  | Some g => g v
  | None => approx_gradient K (objective (obj inp)) v
  end.

(** Modelled from the spec: the linearized constraints of the missing
    solver, the rows of all the Jacobians in the order of the constraints. *)
Definition jacobian_rows (inp : Input) (v : DecisionVector) : list (list R) :=
  concat (map (fun c => jacobian c v) (constraints inp)).

(** Modelled from the spec: the gradient of the Lagrangian in the missing
    solver, the objective's gradient minus the rows of the Jacobians
    weighted by their multipliers. *)
Definition lagrangian_gradient
    (K : Kernel) (inp : Input) (v : DecisionVector) (lam : list R) : list R :=
  fold_left (fun acc lr => axpy (- fst lr) (snd lr) acc)
            (combine lam (jacobian_rows inp v)) (grad K inp v).

(** Modelled from the spec: a constraint value of the missing solver is
    within [t] of being satisfied: an equality must equal zero, an
    inequality must be >= zero, up to [t]. *)
Definition satisfied (t : R) (k : ConstraintKind) (a : R) : bool :=
  match k with
  | EQUALITY => Rleb (Rabs a) t
  | INEQUALITY => Rleb (- t) a
  end.

(** Modelled from the spec: a value satisfies one bound constraint of the
    missing solver up to [t]; a side that is absent constrains nothing. *)
Definition within_tol (t : R) (b : Bound) (a : R) : bool :=
  match fst b with Some l => Rleb (l - t) a | None => true end &&
  match snd b with Some u => Rleb a (u + t) | None => true end.

(** Modelled from the spec: the bound constraints of the missing solver,
    one per variable, each satisfied up to [t]. *)
Fixpoint bounds_met (t : R) (bs : Bounds) (v : DecisionVector) : bool :=
  match bs, v with
  | [], [] => true
  | b :: bs', a :: v' => within_tol t b a && bounds_met t bs' v'
  | _, _ => false
  end.

(** Modelled from the spec: constraint violations below tolerance (missing
    solver), for the constraints and for the bound constraints. *)
Definition feasible (t : R) (cs : list Constraint) (bs : Bounds)
    (v : DecisionVector) : bool :=
  forallb (fun c => forallb (satisfied t (kind c)) (value c v)) cs &&
  bounds_met t bs v.

(** Modelled from the spec: the convergence check of the missing solver,
    step 5: gradient of the Lagrangian near zero, constraint violations
    below tolerance, and step size below tolerance. *)
Definition converged (K : Kernel) (inp : Input)
    (v : DecisionVector) (lam step : list R) : bool :=
  small (tol inp) (lagrangian_gradient K inp v lam) &&
  feasible (tol inp) (constraints inp) (bounds inp) v &&
  small (tol inp) step.

(** ** The iteration *)

(** Modelled from the spec: the state one run of the missing solver owns:
    the iterate, the Hessian approximation, the multiplier estimates, the
    best iterate found and the iteration count.  [visited] is a ghost
    field: the accepted iterates, the most recent first. *)
Record Iterate (H : Type) := mkIterate {
  cur : DecisionVector;
  hess : H;
  mult : list R;
  best : DecisionVector;
  iter : nat;
  visited : list DecisionVector
}.
Arguments mkIterate {H}.
Arguments cur {H}.
Arguments hess {H}.
Arguments mult {H}.
Arguments best {H}.
Arguments iter {H}.
Arguments visited {H}.

(** Modelled from the spec: the state of the missing solver before the
    first iteration. *)
Definition initial (K : Kernel) (inp : Input) (v : DecisionVector)
    : Iterate (Hessian K) :=
  mkIterate v (hessian_init K inp) [] v 0 [v].

(** Modelled from the spec: the acceptance test of the line search in the
    missing solver, step 3 (Armijo-type): along a descent direction, where
    the change the test demands is no increase, the step length brings the
    merit down by at least that change. *)
Definition sufficient_decrease (K : Kernel) (inp : Input)
    (v d : DecisionVector) (a : R) : bool :=
  let change := c1 K * a * slope K inp v d in
  Rleb change 0 &&
  Rleb (merit K inp (axpy a d v)) (merit K inp v + change).

(** Modelled from the spec: the equality residual of the missing solver,
    the largest absolute value of an equality constraint. *)
Definition equality_residual (cs : list Constraint) (v : DecisionVector) : R :=
  fold_right Rmax 0
    (concat (map (fun c => match kind c with
                           | EQUALITY => map Rabs (value c v)
                           | INEQUALITY => []
                           end) cs)).

(** Modelled from the spec: a step of the missing solver is usable when the
    step length yields sufficient decrease and the equality residual
    shrinks monotonically, that is, does not grow. *)
Definition usable (K : Kernel) (inp : Input) (v d : DecisionVector) : bool :=
  let a := line_search K inp v d in
  sufficient_decrease K inp v d a &&
  Rleb (equality_residual (constraints inp) (axpy a d v))
       (equality_residual (constraints inp) v).

(** Modelled from the spec: the step an approximation gives in the missing
    solver: the solution of the quadratic subproblem, if there is one and
    the step along it is usable. *)
Definition trial (K : Kernel) (inp : Input) (B : Hessian K)
    (v : DecisionVector) : option (Hessian K * DecisionVector * list R) :=
  match qp_solve K B inp v with
  | Some (d, lam) => if usable K inp v d then Some (B, d, lam) else None
  | None => None
  end.

(** Modelled from the spec: an approximation that gives no step is retried
    once, regularized, before the failure surfaces (missing solver). *)
Definition subproblem (K : Kernel) (inp : Input) (st : Iterate (Hessian K))
    : option (Hessian K * DecisionVector * list R) :=
  match trial K inp (hess st) (cur st) with
  | Some r => Some r
  | None => trial K inp (regularize K (hess st)) (cur st)
  end.

(** Modelled from the spec: one iteration of the missing solver, steps 1
    to 5: solve the subproblem, search along the direction, update the
    iterate, the approximation and the multipliers, check convergence.
    The result is the new state and, when the run stops here, why. *)
Definition step (K : Kernel) (inp : Input) (st : Iterate (Hessian K))
    : Iterate (Hessian K) * option Termination :=
  match subproblem K inp st with
  | None => (st, Some SINGULAR_SUBPROBLEM)
  | Some (B, d, lam) =>
      let a := line_search K inp (cur st) d in
      let v := axpy a d (cur st) in
      let s := vsub v (cur st) in
      let y := vsub (grad K inp v) (grad K inp (cur st)) in
      let b := if Rleb (merit K inp v) (merit K inp (best st))
               then v else best st in
      let st' := mkIterate v (bfgs_update K B s y) lam b (S (iter st))
                           (v :: visited st) in
      (st', if converged K inp v lam s then Some CONVERGED else None)
  end.

(** Modelled from the spec: the loop of the missing solver; it stops at
    the first terminal outcome or when the budget is exhausted. *)
Fixpoint iterate (K : Kernel) (inp : Input) (budget : nat)
    (st : Iterate (Hessian K)) : Iterate (Hessian K) * Termination :=
  match budget with
  | O => (st, MAX_ITERATIONS_EXCEEDED)
  | S budget' =>
      match step K inp st with
      | (st', Some why) => (st', why)
      | (st', None) => iterate K inp budget' st'
      end
  end.

(** Modelled from the spec: a run of the missing solver; dimensions are
    checked first, then the bounds, then the initial guess is projected
    and the loop starts. *)
Definition run (K : Kernel) (inp : Input) : Iterate (Hessian K) * Termination :=
  if negb (dims_ok inp) then (initial K inp (x0 inp), INVALID_DIMENSION)
  else if negb (forallb bound_ok (bounds inp))
  then (initial K inp (x0 inp), INFEASIBLE_START)
  else iterate K inp (max_iter inp)
               (initial K inp (project (bounds inp) (x0 inp))).

(** Modelled from the spec: the result of the missing solver; a converged
    run returns its last iterate, every other run the best iterate found
    together with the failure flag and the reason. *)
Definition result (inp : Input) {H : Type} (out : Iterate H * Termination)
    : OptimizationResult :=
  let (st, why) := out in
  match why with
  | CONVERGED =>
      mkResult (cur st) (objective (obj inp) (cur st)) true (iter st) why
  | _ =>
      mkResult (best st) (objective (obj inp) (best st)) false (iter st) why
  end.

(** Modelled from the spec: [solve], the entry point of the missing
    solver. *)
Definition solve (K : Kernel) (inp : Input) : OptimizationResult :=
  result inp (run K inp).

(** ** Predicates of the contract *)

(** Modelled from the spec: a value satisfies one bound of the missing
    solver; an absent side constrains nothing. *)
Definition within (b : Bound) (a : R) : Prop :=
  match fst b with Some l => l <= a | None => True end /\
  match snd b with Some u => a <= u | None => True end.

(** Modelled from the spec: the bound constraints of the subproblem in the
    missing solver: one bound per variable, each satisfied exactly. *)
Definition in_bounds (bs : Bounds) (v : DecisionVector) : Prop :=
  Forall2 within bs v.



(** Modelled from the spec: the state a run of the missing solver starts
    from: the initial guess as given while a check fails, projected onto
    the bounds once the checks have passed. *)
Definition entry (K : Kernel) (inp : Input) : Iterate (Hessian K) :=
  if negb (dims_ok inp) then initial K inp (x0 inp)
  else if negb (forallb bound_ok (bounds inp)) then initial K inp (x0 inp)
  else initial K inp (project (bounds inp) (x0 inp)).

(** Modelled from the spec: the state of the missing solver after [k]
    iterations from a state, the stopping tests of the loop left aside. *)
Definition advance (K : Kernel) (inp : Input) (k : nat)
    (st : Iterate (Hessian K)) : Iterate (Hessian K) :=
  Nat.iter k (fun s => fst (step K inp s)) st.

(** Modelled from the spec: the iterate of a run of the missing solver
    after [k] iterations; iterate 0 is the starting point, and a run that
    counts [n] iterations has gone through the iterates 0 to [n]. *)
Definition iterate_at (K : Kernel) (inp : Input) (k : nat) : DecisionVector :=
  cur (advance K inp k (entry K inp)).

End SQP.

(** * Solutions and gradients of the notebook's problems *)

(** The value of a scalar function of the notebook where it is defined;
    where it raises it has none, and 0 stands for it. *)
Definition scalar (f : list R -> option R) (v : list R) : R :=
  match f v with
  | Some a => a
  | None => 0
  end.

(** The analytic solution of the fencing problem, where the Lagrange
    conditions [14 = l * y], [8 = l * x] meet [x * y = 100]. *)
Definition fence_x : R := sqrt (4 / 7 * 100).
Definition fence_y : R := sqrt (7 / 4 * 100).

(** The stationary point of the portfolio reward, where
    [r_i = 2 * v_i * s_i + 2 * v_total * sum(s)] for each stock. *)
Definition portfolio_best : list R := [37 / 27; 59 / 27; 29 / 27].

(** [g] is the gradient of the scalar function [f] at [x]: [f] is defined
    there, [g] has one entry per variable, and entry [i] is the partial
    derivative of [f] with respect to variable [i]. *)
Definition is_gradient_at (f : list R -> option R) (g x : list R) : Prop :=
  length g = length x /\
  (exists fx, f x = Some fx) /\
  forall i, (i < length x)%nat ->
    derivable_pt_lim (fun t => scalar f (set_nth i t x)) (nth i x 0) (nth i g 0).

(** [a * w], entry by entry. *)
Definition scale (a : R) (w : list R) : list R := map (Rmult a) w.

(** * Properties of a run *)

(** A supplied gradient, a Jacobian row or the bounds list has a length
    other than that of the initial vector. *)
Definition dimension_mismatch (inp : SQP.Input) : Prop :=
  length (SQP.bounds inp) <> length (SQP.x0 inp) \/
  (exists g, SQP.gradient (SQP.obj inp) = Some g /\
             length (g (SQP.x0 inp)) <> length (SQP.x0 inp)) \/
  (exists c row, In c (SQP.constraints inp) /\
                 In row (SQP.jacobian c (SQP.x0 inp)) /\
                 length row <> length (SQP.x0 inp)).

(** The two shapes of a step: there is no usable step and the run stops
    where it is, or an iterate is accepted. *)
Inductive step_spec (K : SQP.Kernel) (inp : SQP.Input)
    (st : SQP.Iterate (SQP.Hessian K))
    : SQP.Iterate (SQP.Hessian K) -> option SQP.Termination -> Prop :=
| step_singular :
    SQP.subproblem K inp st = None ->
    step_spec K inp st st (Some SQP.SINGULAR_SUBPROBLEM)
| step_accept B d lam st' :
    SQP.subproblem K inp st = Some (B, d, lam) ->
    let v := SQP.axpy (SQP.line_search K inp (SQP.cur st) d) d (SQP.cur st) in
    let s := SQP.vsub v (SQP.cur st) in
    SQP.cur st' = v ->
    SQP.mult st' = lam ->
    SQP.iter st' = S (SQP.iter st) ->
    SQP.visited st' = v :: SQP.visited st ->
    SQP.best st' = (if SQP.Rleb (SQP.merit K inp v) (SQP.merit K inp (SQP.best st))
                    then v else SQP.best st) ->
    step_spec K inp st st' (if SQP.converged K inp v lam s
                            then Some SQP.CONVERGED else None).


(** * A kernel and a problem to run the solver on *)

(** The forward-difference gradient, for objectives without an analytic
    one. *)
Definition forward_difference (f : list R -> R) (v : list R) : list R :=
  map (fun i => (f (set_nth i (nth i v 0 + 1 / 1000) v) - f v) * 1000)
      (seq 0 (length v)).

Definition pg_gradient (inp : SQP.Input) (v : list R) : list R :=
  match SQP.gradient (SQP.obj inp) with
  | Some g => g v
  | None => forward_difference (SQP.objective (SQP.obj inp)) v
  end.

(** The projected-gradient direction: with the identity as Hessian
    approximation and the bounds as only constraints, the subproblem's
    solution is the projection of the gradient step, minus the point. *)
Definition pg_direction (inp : SQP.Input) (v : list R) : list R :=
  SQP.vsub (SQP.project (SQP.bounds inp) (SQP.axpy (-1) (pg_gradient inp v) v)) v.

Definition norm2 (d : list R) : R := fold_right (fun a acc => a * a + acc) 0 d.

(** The decrease the subproblem predicts along its direction. *)
Definition pg_slope (inp : SQP.Input) (v d : list R) : R := - norm2 d.

Definition pg_c1 : R := 1 / 10000.

(** The full step if it passes the sufficient-decrease test, no step
    otherwise. *)
Definition pg_line_search (inp : SQP.Input) (v d : list R) : R :=
  if SQP.Rleb (SQP.objective (SQP.obj inp) (SQP.axpy 1 d v))
              (SQP.objective (SQP.obj inp) v + pg_c1 * 1 * pg_slope inp v d)
  then 1 else 0.

Definition projected_gradient : SQP.Kernel := {|
  SQP.Hessian := unit;
  SQP.hessian_init := fun _ => tt;
  SQP.approx_gradient := forward_difference;
  SQP.qp_solve := fun _ inp v => Some (pg_direction inp v, []);
  SQP.regularize := fun B => B;
  SQP.merit := fun inp => SQP.objective (SQP.obj inp);
  SQP.line_search := pg_line_search;
  SQP.slope := pg_slope;
  SQP.c1 := pg_c1;
  SQP.bfgs_update := fun B _ _ => B
|}.

(** Minimize [(a - 1)^2 / 2] subject to [a >= 1/2] and [0 <= a <= 2], from
    [a = 5]. *)
Definition parabola : SQP.Objective := {|
  SQP.objective := fun v => (nth 0 v 0 - 1) ^ 2 / 2;
  SQP.gradient := Some (fun v => [nth 0 v 0 - 1])
|}.

Definition at_least_half : SQP.Constraint := {|
  SQP.kind := SQP.INEQUALITY;
  SQP.value := fun v => [nth 0 v 0 - 1 / 2];
  SQP.jacobian := fun _ => [[1]]
|}.

Definition parabola_input (budget : nat) : SQP.Input := {|
  SQP.obj := parabola;
  SQP.constraints := [at_least_half];
  SQP.bounds := [(Some 0, Some 2)];
  SQP.x0 := [5];
  SQP.tol := 1 / 1000000;
  SQP.max_iter := budget
|}.

(** A kernel that walks uphill on the parabola: the direction is a step of
    one to the right, the line search proposes it in full, and the kernel
    gives 0 for the slope and for the constant of the test. *)
Definition uphill : SQP.Kernel := {|
  SQP.Hessian := unit;
  SQP.hessian_init := fun _ => tt;
  SQP.approx_gradient := forward_difference;
  SQP.qp_solve := fun _ _ _ => Some ([1], []);
  SQP.regularize := fun B => B;
  SQP.merit := fun inp v => SQP.objective (SQP.obj inp) v;
  SQP.line_search := fun _ _ _ => 1;
  SQP.slope := fun _ _ _ => 0;
  SQP.c1 := 0;
  SQP.bfgs_update := fun B _ _ => B
|}.

(** A three-element initial vector paired with a two-element gradient. *)
Definition mismatched_input : SQP.Input := {|
  SQP.obj := {| SQP.objective := fun v => nth 0 v 0 + nth 1 v 0;
                SQP.gradient := Some (fun _ => [1; 1]) |};
  SQP.constraints := [];
  SQP.bounds := [(None, None); (None, None); (None, None)];
  SQP.x0 := [1; 2; 3];
  SQP.tol := 1 / 1000000;
  SQP.max_iter := 100
|}.

(** Decide the comparisons of a run on concrete numbers. *)
Ltac decide_le :=
  match goal with
  | |- context [Rle_dec ?a ?b] =>
      first
        [ let H := fresh in
          assert (H : a <= b) by lra;
          destruct (Rle_dec a b); [clear H | contradiction]
        | let H := fresh in
          assert (H : ~ a <= b) by lra;
          destruct (Rle_dec a b); [contradiction | clear H] ]
  | |- context [Rcase_abs ?a] =>
      first
        [ let H := fresh in
          assert (H : a >= 0) by lra;
          destruct (Rcase_abs a); [exfalso; lra | clear H]
        | let H := fresh in
          assert (H : a < 0) by lra;
          destruct (Rcase_abs a); [clear H | exfalso; lra] ]
  end.

Ltac unfold_solver :=
  cbv [SQP.step SQP.subproblem SQP.trial SQP.usable SQP.sufficient_decrease
       SQP.equality_residual SQP.slope SQP.c1
       SQP.dims_ok SQP.bound_ok SQP.project SQP.clip SQP.initial
       SQP.converged SQP.feasible SQP.satisfied SQP.small
       SQP.within_tol SQP.bounds_met
       SQP.lagrangian_gradient SQP.jacobian_rows SQP.grad SQP.axpy SQP.vsub
       SQP.Rleb
       SQP.qp_solve SQP.line_search SQP.merit SQP.hessian_init SQP.regularize
       SQP.bfgs_update SQP.approx_gradient SQP.Hessian
       SQP.obj SQP.constraints SQP.bounds SQP.x0 SQP.tol SQP.max_iter
       SQP.objective SQP.gradient SQP.kind SQP.value SQP.jacobian
       SQP.cur SQP.hess SQP.mult SQP.best SQP.iter SQP.visited
       projected_gradient pg_direction pg_gradient pg_line_search pg_slope
       uphill
       pg_c1 norm2 parabola_input parabola at_least_half
       length Nat.eqb andb negb forallb fst snd nth map concat combine
       fold_left fold_right app Rmin Rmax Rabs].

(** * The notebook's functions: derivatives and the profit curve *)

(** An affine function of one variable has its coefficient as derivative
    everywhere; the constraint functions of the notebook are affine in each
    variable taken alone. *)
Lemma derivable_pt_lim_affine (f : R -> R) (a b : R) :
  (forall t, f t = a * t + b) ->
  forall t, derivable_pt_lim f t a.
Proof.
  intros Hf t eps Heps.
  exists (mkposreal 1 Rlt_0_1). intros h Hh _.
  rewrite !Hf.
  replace ((a * (t + h) + b - (a * t + b)) / h - a) with 0 by (field; exact Hh).
  rewrite Rabs_R0. exact Heps.
Qed.

Lemma sum_three (a b c : R) : sum [a; b; c] = a + b + c.
Proof. unfold sum. simpl. ring. Qed.

Lemma fencing_jac_exact (x y : R) : jac_exact Fencing.ineq_cons [x; y].
Proof.
  exists [x * y - 100], [[y; x]]. repeat split.
  - intros row [<- | []]. reflexivity.
  - intros j i Hj Hi. simpl in Hj, Hi.
    destruct j as [|j]; [|lia].
    destruct i as [|[|i]]; [| |lia]; simpl.
    + apply derivable_pt_lim_affine with (b := -100).
      intros t. unfold component. simpl. ring.
    + apply derivable_pt_lim_affine with (b := -100).
      intros t. unfold component. simpl. ring.
Qed.

Lemma portfolio_jac_exact (s1 s2 s3 : R) :
  jac_exact Portfolio.ineq_cons [s1; s2; s3].
Proof.
  exists [10 - sum [s1; s2; s3]], [[-1; -1; -1]]. repeat split.
  - intros row [<- | []]. reflexivity.
  - intros j i Hj Hi. simpl in Hj, Hi.
    destruct j as [|j]; [|lia].
    destruct i as [|[|[|i]]]; [| | |lia]; simpl.
    + apply derivable_pt_lim_affine with (b := 10 - s2 - s3).
      intros t. unfold component. simpl. rewrite sum_three. ring.
    + apply derivable_pt_lim_affine with (b := 10 - s1 - s3).
      intros t. unfold component. simpl. rewrite sum_three. ring.
    + apply derivable_pt_lim_affine with (b := 10 - s1 - s2).
      intros t. unfold component. simpl. rewrite sum_three. ring.
Qed.

Lemma lagrange_jac_exact (x y : R) : jac_exact Lagrange.ineq_cons [x; y].
Proof.
  exists [x + y - 6], [[1; 1]]. repeat split.
  - intros row [<- | []]. reflexivity.
  - intros j i Hj Hi. simpl in Hj, Hi.
    destruct j as [|j]; [|lia].
    destruct i as [|[|i]]; [| |lia]; simpl.
    + apply derivable_pt_lim_affine with (b := y - 6).
      intros t. unfold component. simpl. ring.
    + apply derivable_pt_lim_affine with (b := x - 6).
      intros t. unfold component. simpl. ring.
Qed.

(** C9: in each of the three constraint dictionaries of the notebook the
    ['jac'] entry is the exact derivative of the ['fun'] entry: at every
    point [(x, y)] the Jacobian of [x*y - 100] is [[y, x]] (fencing), at
    every [(s1, s2, s3)] the Jacobian of [10 - sum(s)] is [[-1, -1, -1]]
    (portfolio), and at every [(x, y)] the Jacobian of [x + y - 6] is
    [[1, 1]] (Lagrange). *)
Theorem constraint_jacobians_exact :
  (forall x y, jac Fencing.ineq_cons [x; y] = Some [[y; x]] /\
               jac_exact Fencing.ineq_cons [x; y]) /\
  (forall s1 s2 s3, jac Portfolio.ineq_cons [s1; s2; s3] = Some [[-1; -1; -1]] /\
                    jac_exact Portfolio.ineq_cons [s1; s2; s3]) /\
  (forall x y, jac Lagrange.ineq_cons [x; y] = Some [[1; 1]] /\
               jac_exact Lagrange.ineq_cons [x; y]).
Proof.
  split; [|split]; intros; (split; [reflexivity|]).
  - apply fencing_jac_exact.
  - apply portfolio_jac_exact.
  - apply lagrange_jac_exact.
Qed.

(** The profit curve is a downward parabola around 7.5. *)
Lemma profit_square (x : R) : profit x = 375 / 100 - (x - 75 / 10) ^ 2 / 15.
Proof. unfold profit. field. Qed.

(** C10: [profit] has a unique global maximum, at 7.5 with value 3.75: no
    real [x] gives more than 3.75, and [x] gives exactly 3.75 if and only
    if [x = 7.5]. *)
Theorem profit_unique_maximum :
  profit (75 / 10) = 375 / 100 /\
  forall x, profit x <= 375 / 100 /\ (profit x = 375 / 100 <-> x = 75 / 10).
Proof.
  split.
  - unfold profit. field.
  - intros x. rewrite profit_square.
    pose proof (pow2_ge_0 (x - 75 / 10)) as Hsq. split.
    + lra.
    + split; intros H.
      * assert (Hs : (x - 75 / 10) ^ 2 = 0) by lra.
        destruct (Req_dec (x - 75 / 10) 0) as [Hx | Hx]; [lra|].
        exfalso. exact (pow_nonzero _ 2 Hx Hs).
      * subst x. field.
Qed.

(** ** What the notebook states about its problems *)

Lemma neg_profit_derivative (x : R) :
  derivable_pt_lim neg_profit x (2 * x / 15 - 1).
Proof.
  intros eps Heps. exists (mkposreal eps Heps). intros h Hh Hlt. simpl in Hlt.
  unfold neg_profit, profit.
  replace ((- (x + h - (x + h) ^ 2 / 15) - - (x - x ^ 2 / 15)) / h -
           (2 * x / 15 - 1)) with (h / 15) by (field; exact Hh).
  unfold Rdiv. rewrite Rabs_mult, (Rabs_pos_eq (/ 15)) by lra. lra.
Qed.

(** The derivative of the minimized function vanishes at 7.5 only. *)
Lemma neg_profit_stationary (x : R) : 2 * x / 15 - 1 = 0 <-> x = 75 / 10.
Proof. split; intros; lra. Qed.

(** On the line [x + y = 6] the cost is at least 20, the value at
    [(2, 4)], and it is 20 there only. *)
Lemma lagrange_analytic_solution :
  Lagrange.cost [2; 4] = Some 20 /\
  Lagrange.constraint [2; 4] = Some 6 /\
  forall x y c, x + y = 6 -> Lagrange.cost [x; y] = Some c ->
                20 <= c /\ (c = 20 -> x = 2 /\ y = 4).
Proof.
  split; [|split].
  - unfold Lagrange.cost. simpl. f_equal. ring.
  - unfold Lagrange.constraint. simpl. f_equal. ring.
  - intros x y c Hxy Hc.
    assert (Ec : c = 20 + (x - 2) ^ 2).
    { unfold Lagrange.cost in Hc. simpl in Hc. inversion Hc.
      replace y with (6 - x) by lra. ring. }
    pose proof (pow2_ge_0 (x - 2)) as Hpos. split; [lra|].
    intros H. assert (Hz : (x - 2) ^ 2 = 0) by lra.
    destruct (Req_dec (x - 2) 0) as [Hx | Hx]; [lra|].
    exfalso. exact (pow_nonzero _ 2 Hx Hz).
Qed.

Lemma fence_area : fence_x * fence_y = 100.
Proof.
  unfold fence_x, fence_y. rewrite <- sqrt_mult by lra.
  replace (4 / 7 * 100 * (7 / 4 * 100)) with (100 * 100) by field.
  apply sqrt_square. lra.
Qed.

(** At the stated point the area constraint is active, and no point with
    area at least 100 and non-negative sides costs less. *)
Lemma fencing_analytic_solution :
  Fencing.area [fence_x; fence_y] = Some 100 /\
  forall x y c, 0 <= x -> 0 <= y -> 100 <= x * y ->
                Fencing.cost [x; y] = Some c ->
                14 * fence_x + 8 * fence_y <= c.
Proof.
  split.
  - unfold Fencing.area. simpl. rewrite fence_area. reflexivity.
  - intros x y c Hx Hy Harea Hc. unfold Fencing.cost in Hc. simpl in Hc.
    inversion Hc; subst c. clear Hc.
    pose proof fence_area as Hxy.
    assert (Hx2 : fence_x * fence_x = 4 / 7 * 100)
      by (apply sqrt_sqrt; lra).
    assert (Hy2 : fence_y * fence_y = 7 / 4 * 100)
      by (apply sqrt_sqrt; lra).
    assert (Hfx : 0 <= fence_x) by apply sqrt_pos.
    assert (Hfy : 0 <= fence_y) by apply sqrt_pos.
    set (a := 14 * fence_x + 8 * fence_y).
    set (b := 7 * 2 * x + 4 * 2 * y).
    assert (Ha : a * a = 44800) by (unfold a; nra).
    assert (Hb : 44800 <= b * b).
    { unfold b. pose proof (Rle_0_sqr (14 * x - 8 * y)) as Hs.
      unfold Rsqr in Hs. nra. }
    assert (Ha0 : 0 <= a) by (unfold a; lra).
    assert (Hb0 : 0 <= b) by (unfold b; lra).
    destruct (Rle_dec a b) as [Hle | Hgt]; [exact Hle|].
    exfalso. assert (b < a) by lra. nra.
Qed.

(** * The solver: what a run guarantees *)

(** ** Comparisons and vectors *)

Lemma Rleb_le (a b : R) : SQP.Rleb a b = true <-> a <= b.
Proof.
  unfold SQP.Rleb. destruct (Rle_dec a b); split; intros; auto; discriminate.
Qed.


Lemma axpy_length (a : R) (d v : list R) :
  length (SQP.axpy a d v) = length v.
Proof.
  revert d. induction v as [|vi v IH]; intros [|di d]; simpl; auto.
Qed.

Lemma axpy_zero (d v : list R) : SQP.axpy 0 d v = v.
Proof.
  revert d. induction v as [|vi v IH]; intros [|di d]; simpl; auto.
  rewrite IH. f_equal. ring.
Qed.

Lemma project_length (bs : SQP.Bounds) (v : list R) :
  length (SQP.project bs v) = length v.
Proof.
  revert v. induction bs as [|b bs IH]; intros [|a v]; simpl; auto.
Qed.

(** ** Bounds *)

Lemma clip_within (b : SQP.Bound) (a : R) :
  SQP.bound_ok b = true -> SQP.within b (SQP.clip b a).
Proof.
  destruct b as [[l|] [u|]]; unfold SQP.within, SQP.clip; simpl; intros Hb.
  - apply Rleb_le in Hb. unfold Rmin, Rmax.
    destruct (Rle_dec l a); destruct (Rle_dec u _); lra.
  - unfold Rmax. destruct (Rle_dec l a); lra.
  - unfold Rmin. destruct (Rle_dec u a); lra.
  - auto.
Qed.

(** Projection lands inside well-formed bounds, one bound per variable. *)
Lemma project_in_bounds (bs : SQP.Bounds) (v : list R) :
  forallb SQP.bound_ok bs = true -> length bs = length v ->
  SQP.in_bounds bs (SQP.project bs v).
Proof.
  revert v. induction bs as [|b bs IH]; intros [|a v] Hok Hlen;
    simpl in *; try discriminate.
  - constructor.
  - apply andb_prop in Hok as [Hb Hbs]. constructor.
    + apply clip_within, Hb.
    + apply IH; auto.
Qed.

(** A box is convex: between a point of the box and the full step, every
    shorter step stays in the box. *)
Lemma within_convex (b : SQP.Bound) (a vi di : R) :
  0 <= a <= 1 -> SQP.within b vi -> SQP.within b (vi + 1 * di) ->
  SQP.within b (vi + a * di).
Proof.
  intros Ha [Hl Hu] [Hl' Hu'].
  destruct b as [[l|] [u|]]; unfold SQP.within; simpl in *; split; auto; nra.
Qed.

Lemma axpy_in_bounds (bs : SQP.Bounds) (a : R) (d v : list R) :
  0 <= a <= 1 -> SQP.in_bounds bs v -> SQP.in_bounds bs (SQP.axpy 1 d v) ->
  SQP.in_bounds bs (SQP.axpy a d v).
Proof.
  intros Ha Hv. revert d.
  induction Hv as [|b vi bs v Hb Hv IH]; intros d Hfull.
  - destruct d; constructor.
  - destruct d as [|di d]; simpl in *.
    + constructor; auto.
    + inversion Hfull; subst. constructor.
      * apply within_convex; auto.
      * apply IH; auto.
Qed.

(** ** Feasibility *)




(** ** The dimension check *)

Lemma dims_ok_spec (inp : SQP.Input) :
  SQP.dims_ok inp = true <->
  length (SQP.bounds inp) = length (SQP.x0 inp) /\
  (forall g, SQP.gradient (SQP.obj inp) = Some g ->
             length (g (SQP.x0 inp)) = length (SQP.x0 inp)) /\
  (forall c, In c (SQP.constraints inp) ->
     length (SQP.jacobian c (SQP.x0 inp)) = length (SQP.value c (SQP.x0 inp)) /\
     forall row, In row (SQP.jacobian c (SQP.x0 inp)) ->
                 length row = length (SQP.x0 inp)).
Proof.
  unfold SQP.dims_ok. rewrite !andb_true_iff, Nat.eqb_eq, forallb_forall.
  split.
  - intros [[Hb Hg] Hc]. repeat split; auto.
    + intros g Eg. rewrite Eg in Hg. apply Nat.eqb_eq, Hg.
    + apply Hc in H. apply andb_prop in H as [H _]. apply Nat.eqb_eq, H.
    + intros row Hrow. apply Hc in H. apply andb_prop in H as [_ H].
      rewrite forallb_forall in H. apply Nat.eqb_eq, H, Hrow.
  - intros (Hb & Hg & Hc). repeat split; auto.
    + destruct (SQP.gradient (SQP.obj inp)) as [g|]; auto.
      apply Nat.eqb_eq, Hg. reflexivity.
    + intros c Hin. destruct (Hc c Hin) as [Hrows Hcols].
      apply andb_true_intro. split.
      * apply Nat.eqb_eq, Hrows.
      * apply forallb_forall. intros row Hrow. apply Nat.eqb_eq, Hcols, Hrow.
Qed.


(** ** One step and the loop *)

Section Run.

Variable K : SQP.Kernel.
Variable inp : SQP.Input.

Local Abbreviation state := (SQP.Iterate (SQP.Hessian K)).

(** A step that an approximation gives solves its subproblem and is
    usable. *)
Lemma trial_some (B : SQP.Hessian K) (v : list R) B' d lam :
  SQP.trial K inp B v = Some (B', d, lam) ->
  SQP.qp_solve K B' inp v = Some (d, lam) /\ SQP.usable K inp v d = true.
Proof.
  unfold SQP.trial. intros H.
  destruct (SQP.qp_solve K B inp v) as [[d1 l1]|] eqn:E; [|discriminate].
  destruct (SQP.usable K inp v d1) eqn:U; inversion H; subst. auto.
Qed.

Lemma subproblem_trial (st : state) B d lam :
  SQP.subproblem K inp st = Some (B, d, lam) ->
  SQP.qp_solve K B inp (SQP.cur st) = Some (d, lam) /\
  SQP.usable K inp (SQP.cur st) d = true.
Proof.
  unfold SQP.subproblem. intros H.
  destruct (SQP.trial K inp (SQP.hess st) (SQP.cur st)) as [r|] eqn:E.
  - inversion H; subst. eapply trial_some; eauto.
  - eapply trial_some; eauto.
Qed.

(** A direction handed to the line search was produced by the quadratic
    subproblem, on the approximation or on its regularization. *)
Lemma subproblem_some (st : state) B d lam :
  SQP.subproblem K inp st = Some (B, d, lam) ->
  exists B', SQP.qp_solve K B' inp (SQP.cur st) = Some (d, lam).
Proof.
  intros H. exists B. apply subproblem_trial in H. tauto.
Qed.


(** A usable step does not increase the merit, nor the equality
    residual. *)
Lemma usable_merit (v d : list R) :
  SQP.usable K inp v d = true ->
  SQP.merit K inp (SQP.axpy (SQP.line_search K inp v d) d v) <=
  SQP.merit K inp v.
Proof.
  unfold SQP.usable, SQP.sufficient_decrease. intros H.
  apply andb_prop in H as [H _]. apply andb_prop in H as [H1 H2].
  apply Rleb_le in H1, H2. lra.
Qed.

Lemma usable_residual (v d : list R) :
  SQP.usable K inp v d = true ->
  SQP.equality_residual (SQP.constraints inp)
    (SQP.axpy (SQP.line_search K inp v d) d v) <=
  SQP.equality_residual (SQP.constraints inp) v.
Proof.
  unfold SQP.usable. intros H.
  apply andb_prop in H as [_ H]. apply Rleb_le in H. exact H.
Qed.

Lemma step_correct (st : state) :
  step_spec K inp st (fst (SQP.step K inp st)) (snd (SQP.step K inp st)).
Proof.
  unfold SQP.step.
  destruct (SQP.subproblem K inp st) as [[[B d] lam]|] eqn:E; simpl.
  - eapply step_accept; eauto.
  - apply step_singular, E.
Qed.

(** One step never increases the merit of the iterate: it stays where it
    is, or it takes a usable step. *)
Lemma step_merit (st : state) :
  SQP.merit K inp (SQP.cur (fst (SQP.step K inp st))) <=
  SQP.merit K inp (SQP.cur st).
Proof.
  pose proof (step_correct st) as Hs.
  destruct (SQP.step K inp st) as [st' why]; simpl in *.
  inversion Hs as [| B d lam st2 Hsub v s Hc Hm Hi Hvis Hb]; subst; [lra|].
  rewrite Hc. apply usable_merit. eapply subproblem_trial; eauto.
Qed.

Lemma step_residual (st : state) :
  SQP.equality_residual (SQP.constraints inp)
    (SQP.cur (fst (SQP.step K inp st))) <=
  SQP.equality_residual (SQP.constraints inp) (SQP.cur st).
Proof.
  pose proof (step_correct st) as Hs.
  destruct (SQP.step K inp st) as [st' why]; simpl in *.
  inversion Hs as [| B d lam st2 Hsub v s Hc Hm Hi Hvis Hb]; subst; [lra|].
  rewrite Hc. apply usable_residual. eapply subproblem_trial; eauto.
Qed.

Lemma advance_S (k : nat) (st : state) :
  SQP.advance K inp (S k) st = SQP.advance K inp k (fst (SQP.step K inp st)).
Proof. unfold SQP.advance. apply Nat.iter_succ_r. Qed.

(** The loop stops in a state that some number of steps reaches, and that
    number is what the iteration count has grown by. *)
Lemma iterate_advance (n : nat) (st : state) :
  exists k, (k <= n)%nat /\
    fst (SQP.iterate K inp n st) = SQP.advance K inp k st /\
    SQP.iter (fst (SQP.iterate K inp n st)) = (SQP.iter st + k)%nat.
Proof.
  revert st. induction n as [|n IH]; intros st; simpl.
  - exists 0%nat. simpl. repeat split; lia.
  - pose proof (step_correct st) as Hs.
    destruct (SQP.step K inp st) as [st1 [why|]] eqn:E; simpl in *.
    + inversion Hs as [| B d lam st2 Hsub v s Hc Hm Hi Hvis Hb]; subst.
      * exists 0%nat. simpl. repeat split; lia.
      * exists 1%nat. unfold SQP.advance. simpl. rewrite E. simpl.
        repeat split; lia.
    + assert (Hi : SQP.iter st1 = S (SQP.iter st)).
      { inversion Hs; subst; auto. }
      destruct (IH st1) as (k & Hk & Ha & Hn).
      exists (S k). rewrite advance_S, E. simpl.
      repeat split; [lia | exact Ha | lia].
Qed.

(** Whatever one step preserves, the loop preserves. *)
Lemma iterate_invariant (P : state -> Prop) :
  (forall st, P st -> P (fst (SQP.step K inp st))) ->
  forall n st, P st -> P (fst (SQP.iterate K inp n st)).
Proof.
  intros Hstep. induction n as [|n IH]; intros st HP; simpl; auto.
  specialize (Hstep st HP).
  destruct (SQP.step K inp st) as [st' [why|]]; simpl in *; auto.
Qed.


End Run.

(** ** Results *)

Lemma dimension_mismatch_check (inp : SQP.Input) :
  dimension_mismatch inp -> SQP.dims_ok inp = false.
Proof.
  intros H. destruct (SQP.dims_ok inp) eqn:E; [|reflexivity].
  apply dims_ok_spec in E. destruct E as (Hb & Hg & Hc).
  destruct H as [H | [(g & Eg & H) | (c & row & Hin & Hrow & H)]].
  - contradiction.
  - exfalso. apply H, Hg, Eg.
  - exfalso. apply H. apply (Hc c Hin). exact Hrow.
Qed.


Lemma result_nit (inp : SQP.Input) (H : Type)
    (out : SQP.Iterate H * SQP.Termination) :
  SQP.nit (SQP.result inp out) = SQP.iter (fst out).
Proof. destruct out as [st []]; reflexivity. Qed.




(** The three ways a run can go. *)
Lemma run_cases (K : SQP.Kernel) (inp : SQP.Input) :
  (SQP.dims_ok inp = false /\
   SQP.run K inp = (SQP.initial K inp (SQP.x0 inp), SQP.INVALID_DIMENSION)) \/
  (SQP.dims_ok inp = true /\ forallb SQP.bound_ok (SQP.bounds inp) = false /\
   SQP.run K inp = (SQP.initial K inp (SQP.x0 inp), SQP.INFEASIBLE_START)) \/
  (SQP.dims_ok inp = true /\ forallb SQP.bound_ok (SQP.bounds inp) = true /\
   SQP.run K inp =
   SQP.iterate K inp (SQP.max_iter inp)
     (SQP.initial K inp (SQP.project (SQP.bounds inp) (SQP.x0 inp)))).
Proof.
  unfold SQP.run.
  destruct (SQP.dims_ok inp); simpl; auto.
  destruct (forallb SQP.bound_ok (SQP.bounds inp)); simpl; auto.
Qed.


(** A run ends in the state that as many steps as it counts reach from
    where it starts. *)
Lemma run_advance (K : SQP.Kernel) (inp : SQP.Input) :
  fst (SQP.run K inp) =
  SQP.advance K inp (SQP.iter (fst (SQP.run K inp))) (SQP.entry K inp).
Proof.
  unfold SQP.entry.
  destruct (run_cases K inp) as [[Hd E] | [(Hd & Hb & E) | (Hd & Hb & E)]];
    rewrite E; try rewrite Hd; try rewrite Hb; simpl; try reflexivity.
  destruct (iterate_advance K inp (SQP.max_iter inp)
              (SQP.initial K inp (SQP.project (SQP.bounds inp) (SQP.x0 inp))))
    as (k & _ & Ha & Hn).
  simpl in Hn. rewrite Hn. exact Ha.
Qed.


(** C7: when a supplied gradient, a Jacobian row or the bounds list has a
    length other than that of the initial vector, [solve] fails with
    INVALID_DIMENSION before the first iteration: the iteration count is 0,
    the initial vector comes back untouched and it is the only point the
    run has visited. *)
Theorem dimension_mismatch_fails_fast (K : SQP.Kernel) (inp : SQP.Input) :
  dimension_mismatch inp ->
  SQP.solve K inp =
    SQP.mkResult (SQP.x0 inp) (SQP.objective (SQP.obj inp) (SQP.x0 inp))
                 false 0 SQP.INVALID_DIMENSION /\
  SQP.visited (fst (SQP.run K inp)) = [SQP.x0 inp].
Proof.
  intros H. apply dimension_mismatch_check in H.
  unfold SQP.solve, SQP.run. rewrite H. simpl. auto.
Qed.


(** ** Bounds and constraints at a successful result *)



(** ** Bounds along a run *)

Section BoundedKernel.

Variable K : SQP.Kernel.

(** The quadratic subproblem is solved subject to the bound constraints:
    from a point inside the bounds the full step stays inside them. *)
Hypothesis qp_respects_bounds :
  forall B inp v d lam,
    SQP.qp_solve K B inp v = Some (d, lam) ->
    SQP.in_bounds (SQP.bounds inp) v ->
    SQP.in_bounds (SQP.bounds inp) (SQP.axpy 1 d v).

(** The line search accepts a fraction of the full step. *)
Hypothesis unit_step :
  forall inp v d, 0 <= SQP.line_search K inp v d <= 1.

Lemma step_in_bounds (inp : SQP.Input) (st : SQP.Iterate (SQP.Hessian K)) :
  SQP.in_bounds (SQP.bounds inp) (SQP.cur st) ->
  SQP.in_bounds (SQP.bounds inp) (SQP.cur (fst (SQP.step K inp st))).
Proof.
  intros Hv. pose proof (step_correct K inp st) as Hs.
  destruct (SQP.step K inp st) as [st' why]; simpl in *.
  inversion Hs as [| B d lam st2 Hsub v s Hc Hm Hi Hvis Hb]; subst; auto.
  rewrite Hc. destruct (subproblem_some K inp st _ _ _ Hsub) as [B' Hqp].
  apply axpy_in_bounds; auto.
  eapply qp_respects_bounds; eauto.
Qed.

(** With such a kernel every iterate of a run that passes the checks is
    inside the bounds, exactly. *)
Lemma run_in_bounds (inp : SQP.Input) :
  SQP.dims_ok inp = true -> forallb SQP.bound_ok (SQP.bounds inp) = true ->
  SQP.in_bounds (SQP.bounds inp) (SQP.cur (fst (SQP.run K inp))).
Proof.
  intros Hd Hb.
  destruct (run_cases K inp) as [[Hd' _] | [(_ & Hb' & _) | (_ & _ & E)]];
    try congruence.
  rewrite E.
  apply (iterate_invariant K inp
           (fun st => SQP.in_bounds (SQP.bounds inp) (SQP.cur st))).
  - intros st. apply step_in_bounds.
  - simpl. apply project_in_bounds; auto.
    apply dims_ok_spec in Hd. tauto.
Qed.

End BoundedKernel.

(** ** The merit function along a run *)

(** C6: the step relation never increases the merit of the iterate: a step
    is taken only where the line search meets the sufficient-decrease test
    along a descent direction, and otherwise the run stops where it is.  So
    along every run the merit values at the iterates never increase from
    one iteration to the next, and the run ends at the iterate that its
    iteration count names. *)
Theorem merit_never_increases (K : SQP.Kernel) (inp : SQP.Input) :
  (forall st : SQP.Iterate (SQP.Hessian K),
     SQP.merit K inp (SQP.cur (fst (SQP.step K inp st))) <=
     SQP.merit K inp (SQP.cur st)) /\
  (forall k,
     SQP.merit K inp (SQP.iterate_at K inp (S k)) <=
     SQP.merit K inp (SQP.iterate_at K inp k)) /\
  (forall j k, (j <= k)%nat ->
     SQP.merit K inp (SQP.iterate_at K inp k) <=
     SQP.merit K inp (SQP.iterate_at K inp j)) /\
  SQP.cur (fst (SQP.run K inp)) =
  SQP.iterate_at K inp (SQP.nit (SQP.solve K inp)).
Proof.
  assert (Hstep : forall k,
            SQP.merit K inp (SQP.iterate_at K inp (S k)) <=
            SQP.merit K inp (SQP.iterate_at K inp k)).
  { intros k. apply (step_merit K inp (SQP.advance K inp k (SQP.entry K inp))). }
  split; [apply step_merit|]. split; [exact Hstep|]. split.
  - intros j k Hjk. induction Hjk as [|k Hjk IH]; [lra|].
    specialize (Hstep k). lra.
  - unfold SQP.solve, SQP.iterate_at. rewrite result_nit.
    rewrite <- run_advance. reflexivity.
Qed.



(** * The projected-gradient kernel on the parabola *)

Lemma within_bound_ok (b : SQP.Bound) (a : R) :
  SQP.within b a -> SQP.bound_ok b = true.
Proof.
  destruct b as [[l|] [u|]]; unfold SQP.within; simpl; intros [Hl Hu]; auto.
  apply Rleb_le. lra.
Qed.

Lemma in_bounds_ok (bs : SQP.Bounds) (v : list R) :
  SQP.in_bounds bs v ->
  forallb SQP.bound_ok bs = true /\ length bs = length v.
Proof.
  induction 1 as [|b a bs v Hb Hv [IH1 IH2]]; simpl; auto.
  rewrite (within_bound_ok b a Hb), IH1, IH2. auto.
Qed.

(** The full step along [p - v] from [v] lands on [p]. *)
Lemma axpy_back (v p : list R) :
  length p = length v -> SQP.axpy 1 (SQP.vsub p v) v = p.
Proof.
  unfold SQP.vsub. revert p.
  induction v as [|vi v IH]; intros [|pi p] Hlen; simpl in *;
    try discriminate; auto.
  rewrite IH by lia. f_equal. ring.
Qed.

Lemma pg_respects_bounds :
  forall B inp v d lam,
    SQP.qp_solve projected_gradient B inp v = Some (d, lam) ->
    SQP.in_bounds (SQP.bounds inp) v ->
    SQP.in_bounds (SQP.bounds inp) (SQP.axpy 1 d v).
Proof.
  intros B inp v d lam Hqp Hv. simpl in Hqp. inversion Hqp; subst d lam.
  destruct (in_bounds_ok _ _ Hv) as [Hok Hlen].
  unfold pg_direction. rewrite axpy_back.
  - apply project_in_bounds; auto. rewrite axpy_length. exact Hlen.
  - rewrite project_length, axpy_length. reflexivity.
Qed.

Lemma pg_unit_step :
  forall inp v d, 0 <= SQP.line_search projected_gradient inp v d <= 1.
Proof.
  intros inp v d. simpl. unfold pg_line_search.
  destruct (SQP.Rleb _ _); lra.
Qed.

Lemma norm2_nonneg (d : list R) : 0 <= norm2 d.
Proof.
  induction d as [|a d IH]; simpl; [lra|].
  pose proof (Rle_0_sqr a) as Ha. unfold Rsqr in Ha. lra.
Qed.

Lemma parabola_start (n : nat) :
  SQP.project (SQP.bounds (parabola_input n)) (SQP.x0 (parabola_input n)) = [2].
Proof. unfold_solver. repeat decide_le. reflexivity. Qed.

Lemma parabola_step_far (n : nat) :
  SQP.step projected_gradient (parabola_input n)
    (SQP.mkIterate [2] tt [] [2] 0 [[2]]) =
  (SQP.mkIterate [1] tt [] [1] 1 [[1]; [2]], None).
Proof. unfold_solver. repeat decide_le. repeat f_equal; lra. Qed.


Lemma parabola_checks (n : nat) :
  SQP.dims_ok (parabola_input n) = true /\
  forallb SQP.bound_ok (SQP.bounds (parabola_input n)) = true.
Proof. unfold_solver. repeat decide_le. split; reflexivity. Qed.

Lemma iterate_S (K : SQP.Kernel) (inp : SQP.Input) (n : nat)
    (st : SQP.Iterate (SQP.Hessian K)) :
  SQP.iterate K inp (S n) st =
  match SQP.step K inp st with
  | (st', Some why) => (st', why)
  | (st', None) => SQP.iterate K inp n st'
  end.
Proof. reflexivity. Qed.





(** ** The theorems at work *)


(** The projected-gradient kernel keeps the run on the parabola inside the
    bounds. *)
Lemma parabola_in_bounds (n : nat) :
  SQP.in_bounds (SQP.bounds (parabola_input n))
    (SQP.cur (fst (SQP.run projected_gradient (parabola_input n)))).
Proof.
  apply (run_in_bounds projected_gradient pg_respects_bounds pg_unit_step);
    apply parabola_checks.
Qed.

(** The iterates of the run on the parabola: the projected start 2, then
    1. *)
Lemma parabola_iterates (n : nat) :
  SQP.iterate_at projected_gradient (parabola_input n) 0 = [2] /\
  SQP.iterate_at projected_gradient (parabola_input n) 1 = [1].
Proof.
  assert (He : SQP.entry projected_gradient (parabola_input n) =
               SQP.mkIterate [2] tt [] [2] 0 [[2]]).
  { unfold SQP.entry. destruct (parabola_checks n) as [-> ->].
    simpl negb. cbv iota. rewrite parabola_start. reflexivity. }
  unfold SQP.iterate_at, SQP.advance. simpl Nat.iter. rewrite He.
  rewrite parabola_step_far. split; reflexivity.
Qed.

(** The kernel that walks uphill takes no step: the run fails where it
    starts. *)
Lemma uphill_step (n : nat) :
  SQP.step uphill (parabola_input n) (SQP.mkIterate [2] tt [] [2] 0 [[2]]) =
  (SQP.mkIterate [2] tt [] [2] 0 [[2]], Some SQP.SINGULAR_SUBPROBLEM).
Proof. unfold_solver. repeat decide_le. reflexivity. Qed.

Lemma uphill_solve :
  SQP.solve uphill (parabola_input 5) =
  SQP.mkResult [2] ((2 - 1) ^ 2 / 2) false 0 SQP.SINGULAR_SUBPROBLEM.
Proof.
  unfold SQP.solve, SQP.run. destruct (parabola_checks 5) as [-> ->].
  rewrite parabola_start. unfold SQP.initial. simpl negb. cbv iota.
  change (SQP.max_iter (parabola_input 5)) with 5%nat.
  change (SQP.hessian_init uphill (parabola_input 5)) with tt.
  rewrite iterate_S, uphill_step. reflexivity.
Qed.

(** The run on the parabola goes from 2 to 1, and the merit from 1/2 to
    0. *)
Lemma merit_never_increases_witness :
  SQP.iterate_at projected_gradient (parabola_input 5) 0 = [2] /\
  SQP.iterate_at projected_gradient (parabola_input 5) 1 = [1] /\
  SQP.merit projected_gradient (parabola_input 5)
    (SQP.iterate_at projected_gradient (parabola_input 5) 1) <=
  SQP.merit projected_gradient (parabola_input 5)
    (SQP.iterate_at projected_gradient (parabola_input 5) 0).
Proof.
  split; [apply parabola_iterates|]. split; [apply parabola_iterates|].
  exact (proj1 (proj2 (merit_never_increases projected_gradient
                         (parabola_input 5))) 0%nat).
Defined.

(** Three variables, a gradient of two entries: rejected at once. *)
Lemma dimension_mismatch_fails_fast_witness :
  dimension_mismatch mismatched_input /\
  SQP.solve projected_gradient mismatched_input =
    SQP.mkResult [1; 2; 3] (1 + 2) false 0 SQP.INVALID_DIMENSION /\
  SQP.visited (fst (SQP.run projected_gradient mismatched_input)) = [[1; 2; 3]].
Proof.
  assert (H : dimension_mismatch mismatched_input).
  { right. left. exists (fun _ => [1; 1]). split; [reflexivity|].
    simpl. lia. }
  split; [exact H|].
  exact (dimension_mismatch_fails_fast projected_gradient mismatched_input H).
Defined.


(** * More about the notebook's problems *)

(** ** The builtin [sum] *)

Lemma fold_left_Rplus (l : list R) (a : R) :
  fold_left Rplus l a = a + fold_left Rplus l 0.
Proof.
  revert a. induction l as [|e l IH]; intros a; simpl.
  - ring.
  - rewrite (IH (a + e)), (IH (0 + e)). ring.
Qed.

Lemma sum_cons (a : R) (l : list R) : sum (a :: l) = a + sum l.
Proof.
  unfold sum. simpl. rewrite fold_left_Rplus. ring.
Qed.

(** ** Linear programming: the factory *)

Lemma factory_feasible_iff (x : list R) :
  lp_feasible Factory.A Factory.b Factory.bounds x <->
  exists p1 p2, x = [p1; p2] /\
                p1 + p2 <= 40 /\ 2 * p1 + 3 * p2 <= 100 /\ 0 <= p1 /\ 0 <= p2.
Proof.
  unfold lp_feasible, Factory.A, Factory.b, Factory.bounds,
    Factory.p1_bounds, Factory.p2_bounds. split.
  - intros [HA HB].
    inversion HB as [|b1 p1 bs1 x1 [H1 _] HB1]; subst.
    inversion HB1 as [|b2 p2 bs2 x2 [H2 _] HB2]; subst.
    inversion HB2; subst. simpl in H1, H2.
    inversion HA as [|r1 e1 rs1 es1 Hr1 HA1]; subst.
    inversion HA1 as [|r2 e2 rs2 es2 Hr2 HA2]; subst.
    simpl in Hr1, Hr2. exists p1, p2. repeat split; lra.
  - intros (p1 & p2 & -> & H1 & H2 & H3 & H4). split.
    + constructor; [simpl; lra|]. constructor; [simpl; lra|]. constructor.
    + constructor; [split; simpl; auto|].
      constructor; [split; simpl; auto|]. constructor.
Qed.

(** X1: the linear program of the factory has exactly one solution: make
    none of the first product and 100/3 of the second.  That point is
    feasible, its objective is -800/3, no feasible point has a smaller
    objective and no other feasible point reaches it; there the resource
    constraint and the first lower bound are active and the total-output
    constraint is not. *)
Theorem factory_optimum :
  lp_feasible Factory.A Factory.b Factory.bounds [0; 100 / 3] /\
  dot Factory.c [0; 100 / 3] = - (800 / 3) /\
  (forall x, lp_feasible Factory.A Factory.b Factory.bounds x ->
             - (800 / 3) <= dot Factory.c x /\
             (dot Factory.c x = - (800 / 3) -> x = [0; 100 / 3])) /\
  dot [2; 3] [0; 100 / 3] = 100 /\ dot [1; 1] [0; 100 / 3] < 40.
Proof.
  split; [|split; [|split; [|split]]].
  - apply factory_feasible_iff. exists 0, (100 / 3). repeat split; lra.
  - simpl. lra.
  - intros x Hx. apply factory_feasible_iff in Hx.
    destruct Hx as (p1 & p2 & -> & H1 & H2 & H3 & H4). simpl. split; [lra|].
    intros He. assert (p1 = 0) by lra. assert (p2 = 100 / 3) by lra.
    subst. reflexivity.
  - simpl. lra.
  - simpl. lra.
Qed.

(** X2: the edges the plot draws are the constraints of the linear program:
    a point is under the red edge exactly when it meets the total-output
    constraint and under the blue edge exactly when it meets the resource
    constraint, so inside the plotted window the points left unshaded are
    the feasible ones; the two edges cross at (20, 20) and the solution
    sits on the blue edge. *)
Theorem factory_plot_edges :
  (forall x y, dot [1; 1] [x; y] <= 40 <-> y <= Factory.red_edge x) /\
  (forall x y, dot [2; 3] [x; y] <= 100 <-> y <= Factory.blue_edge x) /\
  (forall x y, 0 <= x -> 0 <= y ->
     (lp_feasible Factory.A Factory.b Factory.bounds [x; y] <->
      y <= Factory.red_edge x /\ y <= Factory.blue_edge x)) /\
  (forall x, Factory.red_edge x = Factory.blue_edge x <-> x = 20) /\
  Factory.blue_edge 0 = 100 / 3.
Proof.
  unfold Factory.red_edge, Factory.blue_edge.
  split; [|split; [|split; [|split]]].
  - intros x y. simpl. split; intros; lra.
  - intros x y. simpl. split; intros; lra.
  - intros x y Hx Hy. rewrite factory_feasible_iff. split.
    + intros (p1 & p2 & E & H1 & H2 & _). inversion E; subst. split; lra.
    + intros [H1 H2]. exists x, y. repeat split; lra.
  - intros x. split; intros; lra.
  - lra.
Qed.

(** A point of the window the plot draws, feasible and under both edges. *)
Lemma factory_plot_edges_witness :
  0 <= 10 /\ 0 <= 15 /\
  (lp_feasible Factory.A Factory.b Factory.bounds [10; 15] <->
   15 <= Factory.red_edge 10 /\ 15 <= Factory.blue_edge 10).
Proof.
  assert (H0 : 0 <= 10) by lra. assert (H1 : 0 <= 15) by lra.
  split; [exact H0|]. split; [exact H1|].
  exact (proj1 (proj2 (proj2 factory_plot_edges)) 10 15 H0 H1).
Defined.

(** ** Simple minimization: the negated profit *)

(** X3: the function handed to [minimize], [-profit], has the derivative
    [2x/15 - 1] everywhere; the derivative vanishes at 7.5 only, is negative
    before and positive after, and 7.5 is the one global minimum, of value
    -3.75. *)
Theorem neg_profit_minimum :
  (forall x, derivable_pt_lim neg_profit x (2 * x / 15 - 1)) /\
  (forall x, (2 * x / 15 - 1 = 0 <-> x = 75 / 10) /\
             (2 * x / 15 - 1 < 0 <-> x < 75 / 10)) /\
  neg_profit (75 / 10) = - (375 / 100) /\
  (forall x, - (375 / 100) <= neg_profit x /\
             (neg_profit x = - (375 / 100) -> x = 75 / 10)).
Proof.
  split; [|split; [|split]].
  - apply neg_profit_derivative.
  - intros x. split; split; intros; lra.
  - unfold neg_profit. rewrite profit_square. field.
  - intros x. unfold neg_profit. rewrite profit_square.
    pose proof (pow2_ge_0 (x - 75 / 10)) as Hsq. split; [lra|].
    intros H. assert (Hs : (x - 75 / 10) ^ 2 = 0) by lra.
    destruct (Req_dec (x - 75 / 10) 0) as [Hx | Hx]; [lra|].
    exfalso. exact (pow_nonzero _ 2 Hx Hs).
Qed.

(** ** The fencing problem *)

(** X4: the fencing problem has exactly one solution, the point
    [(sqrt(400/7), sqrt(175))]: it has non-negative sides and area exactly
    100 (the constraint is active), it costs [80 * sqrt 7], every point
    with non-negative sides and area at least 100 costs at least as much,
    and a point that costs the same is that point. *)
Theorem fencing_optimum :
  0 <= fence_x /\ 0 <= fence_y /\
  Fencing.area [fence_x; fence_y] = Some 100 /\
  Fencing.cost [fence_x; fence_y] = Some (7 * 2 * fence_x + 4 * 2 * fence_y) /\
  7 * 2 * fence_x + 4 * 2 * fence_y = 80 * sqrt 7 /\
  forall x y a c,
    0 <= x -> 0 <= y ->
    Fencing.area [x; y] = Some a -> 100 <= a ->
    Fencing.cost [x; y] = Some c ->
    7 * 2 * fence_x + 4 * 2 * fence_y <= c /\
    (c = 7 * 2 * fence_x + 4 * 2 * fence_y -> x = fence_x /\ y = fence_y).
Proof.
  pose proof fence_area as Hxy.
  assert (Hx2 : fence_x * fence_x = 4 / 7 * 100) by (apply sqrt_sqrt; lra).
  assert (Hy2 : fence_y * fence_y = 7 / 4 * 100) by (apply sqrt_sqrt; lra).
  assert (Hfx : 0 <= fence_x) by apply sqrt_pos.
  assert (Hfy : 0 <= fence_y) by apply sqrt_pos.
  set (a0 := 7 * 2 * fence_x + 4 * 2 * fence_y) in *.
  assert (Ha : a0 * a0 = 44800) by (unfold a0; nra).
  assert (Ha0 : 0 <= a0) by (unfold a0; lra).
  split; [exact Hfx|]. split; [exact Hfy|]. split; [|split; [|split]].
  - unfold Fencing.area. simpl. rewrite Hxy. reflexivity.
  - reflexivity.
  - assert (Hs : sqrt 7 * sqrt 7 = 7) by (apply sqrt_sqrt; lra).
    assert (Hs0 : 0 <= sqrt 7) by apply sqrt_pos.
    assert (Hb : (80 * sqrt 7) * (80 * sqrt 7) = 44800) by nra.
    destruct (Rtotal_order a0 (80 * sqrt 7)) as [Hlt | [He | Hgt]];
      [exfalso; nra | exact He | exfalso; nra].
  - intros x y a c Hx Hy Harea Hge Hc.
    unfold Fencing.area in Harea. unfold Fencing.cost in Hc.
    simpl in Harea, Hc. inversion Harea; subst a. inversion Hc; subst c.
    clear Harea Hc.
    set (b0 := 7 * 2 * x + 4 * 2 * y).
    assert (Hb0 : 0 <= b0) by (unfold b0; lra).
    assert (Hsplit : b0 * b0 =
                     (14 * x - 8 * y) * (14 * x - 8 * y) + 448 * (x * y))
      by (unfold b0; ring).
    pose proof (Rle_0_sqr (14 * x - 8 * y)) as Hs. unfold Rsqr in Hs.
    split.
    + destruct (Rle_dec a0 b0) as [Hle | Hgt]; [exact Hle|].
      exfalso. assert (b0 < a0) by lra. nra.
    + intros He. rewrite He in Hsplit. rewrite Ha in Hsplit.
      assert (Hz : (14 * x - 8 * y) * (14 * x - 8 * y) = 0) by nra.
      assert (Hp : x * y = 100) by nra.
      assert (Hl : 14 * x - 8 * y = 0).
      { destruct (Rmult_integral _ _ Hz); assumption. }
      assert (Hxx : x * x = 4 / 7 * 100) by nra.
      assert (Ex : x = fence_x).
      { destruct (Rtotal_order x fence_x) as [Hlt | [E | Hgt]];
          [exfalso; nra | exact E | exfalso; nra]. }
      split; [exact Ex|]. subst x.
      assert (Hyy : 8 * y = 8 * fence_y) by (unfold a0 in He; unfold b0 in He; lra).
      lra.
Qed.

(** A feasible field: 10 by 20. *)
Lemma fencing_optimum_witness :
  7 * 2 * fence_x + 4 * 2 * fence_y <= 7 * 2 * 10 + 4 * 2 * 20.
Proof.
  assert (Hx : 0 <= 10) by lra. assert (Hy : 0 <= 20) by lra.
  assert (Ha : Fencing.area [10; 20] = Some (10 * 20)) by reflexivity.
  assert (Hge : 100 <= 10 * 20) by lra.
  assert (Hc : Fencing.cost [10; 20] = Some (7 * 2 * 10 + 4 * 2 * 20))
    by reflexivity.
  exact (proj1 (proj2 (proj2 (proj2 (proj2 (proj2 fencing_optimum))))
                  10 20 _ _ Hx Hy Ha Hge Hc)).
Defined.

(** X5: the bounds of the fencing call are needed: on the area constraint
    alone the cost has no minimum, since fields with two negative sides
    have a large area and a cost below any value. *)
Theorem fencing_unbounded_without_bounds (M : R) :
  exists x y a c,
    x < 0 /\ y < 0 /\
    Fencing.area [x; y] = Some a /\ 100 <= a /\
    Fencing.cost [x; y] = Some c /\ c < M.
Proof.
  set (t := Rmax 10 (- M)).
  assert (H10 : 10 <= t) by apply Rmax_l.
  assert (HM : - M <= t) by apply Rmax_r.
  exists (- t), (- t), (- t * - t), (7 * 2 * - t + 4 * 2 * - t).
  split; [lra|]. split; [lra|].
  repeat split.
  - nra.
  - lra.
Qed.

(** ** The Lagrange example *)

(** X6: the analytic solution the notebook states is the solution: (2, 4)
    satisfies the equality constraint and costs 20, every point that
    satisfies the constraint costs at least 20, and one that costs 20 is
    (2, 4). *)
Theorem lagrange_optimum :
  fun_ Lagrange.ineq_cons [2; 4] = Some [0] /\
  Lagrange.cost [2; 4] = Some 20 /\
  forall x y c,
    fun_ Lagrange.ineq_cons [x; y] = Some [0] ->
    Lagrange.cost [x; y] = Some c ->
    20 <= c /\ (c = 20 -> x = 2 /\ y = 4).
Proof.
  split; [|split].
  - simpl. unfold Lagrange.constraint. simpl. do 2 f_equal. ring.
  - unfold Lagrange.cost. simpl. f_equal. ring.
  - intros x y c Hcon Hc.
    assert (Hxy : x + y = 6).
    { simpl in Hcon. unfold Lagrange.constraint in Hcon. simpl in Hcon.
      inversion Hcon. lra. }
    assert (Ec : c = 20 + (x - 2) ^ 2).
    { unfold Lagrange.cost in Hc. simpl in Hc. inversion Hc.
      replace y with (6 - x) by lra. ring. }
    pose proof (pow2_ge_0 (x - 2)) as Hpos. split; [lra|].
    intros H. assert (Hz : (x - 2) ^ 2 = 0) by lra.
    destruct (Req_dec (x - 2) 0) as [Hx | Hx]; [lra|].
    exfalso. exact (pow_nonzero _ 2 Hx Hz).
Qed.

(** A point of the constraint line: (0, 6), of cost 24. *)
Lemma lagrange_optimum_witness : 20 <= 0 ^ 2 + 4 * 6.
Proof.
  assert (Hcon : fun_ Lagrange.ineq_cons [0; 6] = Some [0]).
  { simpl. unfold Lagrange.constraint. simpl. do 2 f_equal. ring. }
  assert (Hc : Lagrange.cost [0; 6] = Some (0 ^ 2 + 4 * 6)) by reflexivity.
  exact (proj1 (proj2 (proj2 lagrange_optimum) 0 6 _ Hcon Hc)).
Defined.

(** ** The portfolio example *)

Lemma reward_three (s1 s2 s3 : R) :
  Portfolio.reward [s1; s2; s3] =
  Some (12 / 10 * s1 + 18 / 10 * s2 + 2 * s3 -
        1 * (1 / 10 * s1 ^ 2 + 2 / 10 * s2 ^ 2 + 5 / 10 * s3 ^ 2 +
             1 / 10 * (s1 + s2 + s3) ^ 2)).
Proof.
  unfold Portfolio.reward, Portfolio.v_total, Portfolio.gamma. simpl.
  rewrite sum_three. reflexivity.
Qed.

(** X7: the portfolio reward has exactly one maximum over all portfolios
    of three stocks, at (37/27, 59/27, 29/27) with value 1043/270; there
    the investment limit is not reached (145/27 is left) and every amount
    is strictly between its bounds 0 and 10, so the constrained problem
    has that same solution. *)
Theorem portfolio_maximum :
  Portfolio.reward portfolio_best = Some (1043 / 270) /\
  fun_ Portfolio.ineq_cons portfolio_best = Some [145 / 27] /\
  Forall (fun a => 0 < a < 10) portfolio_best /\
  forall s1 s2 s3 c,
    Portfolio.reward [s1; s2; s3] = Some c ->
    c <= 1043 / 270 /\ (c = 1043 / 270 -> [s1; s2; s3] = portfolio_best).
Proof.
  unfold portfolio_best. split; [|split; [|split]].
  - rewrite reward_three. f_equal. field.
  - simpl. rewrite sum_three. do 2 f_equal. field.
  - repeat constructor; lra.
  - intros s1 s2 s3 c Hc. rewrite reward_three in Hc. inversion Hc as [Ec].
    clear Hc.
    assert (Hid : 1043 / 270 - c =
                  1 / 10 * (s1 - 37 / 27) ^ 2 + 2 / 10 * (s2 - 59 / 27) ^ 2 +
                  5 / 10 * (s3 - 29 / 27) ^ 2 +
                  1 / 10 * (s1 + s2 + s3 - 125 / 27) ^ 2)
      by (subst c; field).
    pose proof (pow2_ge_0 (s1 - 37 / 27)) as H1.
    pose proof (pow2_ge_0 (s2 - 59 / 27)) as H2.
    pose proof (pow2_ge_0 (s3 - 29 / 27)) as H3.
    pose proof (pow2_ge_0 (s1 + s2 + s3 - 125 / 27)) as H4.
    split; [lra|]. intros He.
    assert (Z1 : (s1 - 37 / 27) ^ 2 = 0) by lra.
    assert (Z2 : (s2 - 59 / 27) ^ 2 = 0) by lra.
    assert (Z3 : (s3 - 29 / 27) ^ 2 = 0) by lra.
    assert (E1 : s1 = 37 / 27).
    { destruct (Req_dec (s1 - 37 / 27) 0) as [E | E]; [lra|].
      exfalso. exact (pow_nonzero _ 2 E Z1). }
    assert (E2 : s2 = 59 / 27).
    { destruct (Req_dec (s2 - 59 / 27) 0) as [E | E]; [lra|].
      exfalso. exact (pow_nonzero _ 2 E Z2). }
    assert (E3 : s3 = 29 / 27).
    { destruct (Req_dec (s3 - 29 / 27) 0) as [E | E]; [lra|].
      exfalso. exact (pow_nonzero _ 2 E Z3). }
    subst. reflexivity.
Qed.

(** The starting point of the call, (3, 3, 3), earns less. *)
Lemma portfolio_maximum_witness :
  12 / 10 * 3 + 18 / 10 * 3 + 2 * 3 -
  1 * (1 / 10 * 3 ^ 2 + 2 / 10 * 3 ^ 2 + 5 / 10 * 3 ^ 2 +
       1 / 10 * (3 + 3 + 3) ^ 2) <= 1043 / 270.
Proof.
  exact (proj1 (proj2 (proj2 (proj2 portfolio_maximum)) 3 3 3 _
                  (reward_three 3 3 3))).
Defined.

(** X8: in the portfolio call the upper bounds are redundant: amounts that
    are all non-negative and meet the investment limit [10 - sum(s) >= 0]
    are each at most 10, however many stocks there are. *)
Theorem portfolio_upper_bounds_redundant (s : list R) (a : R) :
  Forall (fun e => 0 <= e) s ->
  fun_ Portfolio.ineq_cons s = Some [a] -> 0 <= a ->
  Forall (fun e => e <= 10) s /\ 0 <= sum s <= 10.
Proof.
  intros Hpos Hf Ha. simpl in Hf. inversion Hf as [Ea]. clear Hf.
  assert (Hs : sum s <= 10) by lra. clear Ea Ha a.
  revert Hs. induction Hpos as [|e s He Hpos IH]; intros Hs.
  - split; [constructor|]. unfold sum. simpl. lra.
  - rewrite sum_cons in Hs |- *.
    assert (H0 : 0 <= sum s).
    { clear IH Hs. induction Hpos as [|e' s' He' _ IH'].
      - unfold sum. simpl. lra.
      - rewrite sum_cons. lra. }
    destruct IH as [IH1 IH2]; [lra|].
    split; [constructor; [lra | exact IH1] | lra].
Qed.

Lemma portfolio_upper_bounds_redundant_witness :
  Forall (fun e => e <= 10) Portfolio.x0 /\ 0 <= sum Portfolio.x0 <= 10.
Proof.
  apply (portfolio_upper_bounds_redundant Portfolio.x0 (10 - sum Portfolio.x0)).
  - unfold Portfolio.x0. repeat constructor; lra.
  - reflexivity.
  - unfold Portfolio.x0. rewrite sum_three. lra.
Defined.

(** ** Sequences of the wrong length *)

Lemma index_none (xs : list R) (i : nat) :
  index xs i = None <-> (length xs <= i)%nat.
Proof. unfold index. apply nth_error_None. Qed.

(** X9: the two-variable functions of the notebook ([cost] and [area] of
    the fencing cell, [cost] and [constraint] of the Lagrange cell) raise
    exactly on sequences of fewer than two entries, and on longer ones they
    read the first two entries and ignore the rest. *)
Theorem two_variable_functions_domain :
  (forall xy, (Fencing.cost xy = None <-> (length xy < 2)%nat) /\
              (Fencing.area xy = None <-> (length xy < 2)%nat) /\
              (Lagrange.cost xy = None <-> (length xy < 2)%nat) /\
              (Lagrange.constraint xy = None <-> (length xy < 2)%nat)) /\
  (forall x y rest,
      Fencing.cost (x :: y :: rest) = Some (7 * 2 * x + 4 * 2 * y) /\
      Fencing.area (x :: y :: rest) = Some (x * y) /\
      Lagrange.cost (x :: y :: rest) = Some (x ^ 2 + 4 * y) /\
      Lagrange.constraint (x :: y :: rest) = Some (x + y)).
Proof.
  split.
  - intros [|x [|y rest]]; simpl; repeat split; intros; try lia;
      try discriminate; try reflexivity.
  - intros x y rest. repeat split.
Qed.

(** X10: [reward] raises exactly on sequences of fewer than three entries;
    on longer ones the entries past the third are not ignored: they enter
    the market term through [sum(s)]. *)
Theorem reward_domain :
  (forall s, Portfolio.reward s = None <-> (length s < 3)%nat) /\
  (forall s1 s2 s3 rest,
      Portfolio.reward (s1 :: s2 :: s3 :: rest) =
      Some (12 / 10 * s1 + 18 / 10 * s2 + 2 * s3 -
            1 * (1 / 10 * s1 ^ 2 + 2 / 10 * s2 ^ 2 + 5 / 10 * s3 ^ 2 +
                 1 / 10 * (s1 + s2 + s3 + sum rest) ^ 2))) /\
  (forall s1 s2 s3 e,
      Portfolio.reward [s1; s2; s3; e] = Portfolio.reward [s1; s2; s3] ->
      e = 0 \/ e = - 2 * (s1 + s2 + s3)).
Proof.
  assert (Hlong : forall s1 s2 s3 rest,
      Portfolio.reward (s1 :: s2 :: s3 :: rest) =
      Some (12 / 10 * s1 + 18 / 10 * s2 + 2 * s3 -
            1 * (1 / 10 * s1 ^ 2 + 2 / 10 * s2 ^ 2 + 5 / 10 * s3 ^ 2 +
                 1 / 10 * (s1 + s2 + s3 + sum rest) ^ 2))).
  { intros s1 s2 s3 rest.
    unfold Portfolio.reward, Portfolio.v_total, Portfolio.gamma. simpl.
    rewrite !sum_cons. do 2 f_equal. ring. }
  split; [|split].
  - intros [|s1 [|s2 [|s3 rest]]]; try (simpl; split; intros; [lia | reflexivity]).
    rewrite Hlong. simpl. split; intros; [discriminate | lia].
  - exact Hlong.
  - intros s1 s2 s3 e H. rewrite (Hlong s1 s2 s3 [e]), reward_three in H.
    inversion H as [E]. clear H.
    assert (He : sum [e] = e) by (unfold sum; simpl; ring).
    rewrite He in E.
    assert (Hz : e * (e + 2 * (s1 + s2 + s3)) = 0) by nra.
    destruct (Rmult_integral _ _ Hz); [left | right]; lra.
Qed.

Lemma reward_domain_witness :
  0 = 0 \/ 0 = - 2 * (1 + 1 + 1).
Proof.
  apply (proj2 (proj2 reward_domain) 1 1 1 0).
  rewrite (proj1 (proj2 reward_domain) 1 1 1 [0]), reward_three.
  do 2 f_equal. unfold sum. simpl. ring.
Defined.

(** X11: each constraint dictionary is consistent on vectors of one length
    only: ['jac'] is the Jacobian of ['fun'] exactly at the vectors of two
    entries for the fencing and the Lagrange dictionaries and of three
    entries for the portfolio dictionary; elsewhere ['fun'] raises or the
    row of ['jac'] has the wrong length. *)
Theorem jacobians_exact_iff_length :
  (forall xy, jac_exact Fencing.ineq_cons xy <-> length xy = 2%nat) /\
  (forall s, jac_exact Portfolio.ineq_cons s <-> length s = 3%nat) /\
  (forall xy, jac_exact Lagrange.ineq_cons xy <-> length xy = 2%nat) /\
  (forall xy, length xy <> 2%nat ->
     fun_ Fencing.ineq_cons xy = None \/
     exists row, jac Fencing.ineq_cons xy = Some [row] /\
                 length row <> length xy) /\
  (forall s, length s <> 3%nat ->
     fun_ Portfolio.ineq_cons s = None \/
     exists row, jac Portfolio.ineq_cons s = Some [row] /\
                 length row <> length s) /\
  (forall xy, length xy <> 2%nat ->
     fun_ Lagrange.ineq_cons xy = None \/
     exists row, jac Lagrange.ineq_cons xy = Some [row] /\
                 length row <> length xy).
Proof.
  split; [|split; [|split; [|split; [|split]]]];
    [| | | intros xy H; destruct xy as [|x [|y [|z rest]]];
           simpl in H; try lia; try (left; reflexivity);
           right; exists [y; x]; split; [reflexivity | simpl; lia]
         | intros s H; right; exists [-1; -1; -1];
           split; [reflexivity | simpl; lia]
         | intros xy H; right; exists [1; 1];
           split; [reflexivity | simpl; lia] ].
  - intros xy. split.
    + intros (fx & Jx & Hf & HJ & _ & Hrows & _).
      destruct xy as [|x [|y rest]]; simpl in Hf, HJ; try discriminate.
      inversion HJ; subst Jx.
      specialize (Hrows [y; x] (or_introl eq_refl)). simpl in Hrows |- *. lia.
    + intros H. destruct xy as [|x [|y [|z rest]]]; simpl in H; try lia.
      apply fencing_jac_exact.
  - intros s. split.
    + intros (fx & Jx & Hf & HJ & _ & Hrows & _).
      simpl in HJ. inversion HJ; subst Jx.
      specialize (Hrows [-1; -1; -1] (or_introl eq_refl)). simpl in Hrows. lia.
    + intros H. destruct s as [|s1 [|s2 [|s3 [|s4 rest]]]]; simpl in H; try lia.
      apply portfolio_jac_exact.
  - intros xy. split.
    + intros (fx & Jx & Hf & HJ & _ & Hrows & _).
      simpl in HJ. inversion HJ; subst Jx.
      specialize (Hrows [1; 1] (or_introl eq_refl)). simpl in Hrows. lia.
    + intros H. destruct xy as [|x [|y [|z rest]]]; simpl in H; try lia.
      apply lagrange_jac_exact.
Qed.

(** ** Gradients of the objectives and the multiplier conditions *)

Lemma derivable_pt_lim_quadratic (f : R -> R) (a b c : R) :
  (forall t, f t = a * t ^ 2 + b * t + c) ->
  forall t, derivable_pt_lim f t (2 * a * t + b).
Proof.
  intros Hf t eps Heps.
  assert (Hpos : 0 < Rabs a + 1) by (pose proof (Rabs_pos a); lra).
  assert (Hd : 0 < eps / (Rabs a + 1)) by (apply Rdiv_lt_0_compat; assumption).
  exists (mkposreal _ Hd). intros h Hh Hlt. simpl in Hlt.
  rewrite !Hf.
  replace ((a * (t + h) ^ 2 + b * (t + h) + c - (a * t ^ 2 + b * t + c)) / h -
           (2 * a * t + b)) with (a * h) by (field; exact Hh).
  rewrite Rabs_mult.
  assert (Hh0 : 0 <= Rabs h) by apply Rabs_pos.
  assert (Ha0 : 0 <= Rabs a) by apply Rabs_pos.
  assert (Hb : Rabs h * (Rabs a + 1) < eps).
  { apply (Rmult_lt_compat_r (Rabs a + 1)) in Hlt; [|exact Hpos].
    unfold Rdiv in Hlt. rewrite Rmult_assoc, Rinv_l, Rmult_1_r in Hlt by lra.
    exact Hlt. }
  nra.
Qed.

Lemma fencing_cost_gradient (x y : R) :
  is_gradient_at Fencing.cost [14; 8] [x; y].
Proof.
  split; [reflexivity|]. split; [eexists; reflexivity|].
  intros i Hi. simpl in Hi. destruct i as [|[|i]]; [| |lia]; simpl.
  - apply derivable_pt_lim_affine with (b := 8 * y).
    intros t. unfold scalar, Fencing.cost. simpl. ring.
  - apply derivable_pt_lim_affine with (b := 14 * x).
    intros t. unfold scalar, Fencing.cost. simpl. ring.
Qed.

Lemma lagrange_cost_gradient (x y : R) :
  is_gradient_at Lagrange.cost [2 * x; 4] [x; y].
Proof.
  split; [reflexivity|]. split; [eexists; reflexivity|].
  intros i Hi. simpl in Hi. destruct i as [|[|i]]; [| |lia]; simpl.
  - replace (2 * x) with (2 * 1 * x + 0) by ring.
    apply derivable_pt_lim_quadratic with (c := 4 * y).
    intros t. unfold scalar, Lagrange.cost. simpl. ring.
  - apply derivable_pt_lim_affine with (b := x ^ 2).
    intros t. unfold scalar, Lagrange.cost. simpl. ring.
Qed.

Lemma reward_gradient (s1 s2 s3 : R) :
  is_gradient_at Portfolio.reward
    [12 / 10 - 2 / 10 * s1 - 2 / 10 * (s1 + s2 + s3);
     18 / 10 - 4 / 10 * s2 - 2 / 10 * (s1 + s2 + s3);
     2 - s3 - 2 / 10 * (s1 + s2 + s3)]
    [s1; s2; s3].
Proof.
  split; [reflexivity|]. split; [eexists; apply reward_three|].
  intros i Hi. simpl in Hi. destruct i as [|[|[|i]]]; [| | |lia]; simpl.
  - replace (12 / 10 - 2 / 10 * s1 - 2 / 10 * (s1 + s2 + s3))
      with (2 * (- (2 / 10)) * s1 + (12 / 10 - 2 / 10 * (s2 + s3))) by field.
    apply derivable_pt_lim_quadratic
      with (c := 18 / 10 * s2 + 2 * s3 - 2 / 10 * s2 ^ 2 - 5 / 10 * s3 ^ 2 -
                 1 / 10 * (s2 + s3) ^ 2).
    intros t. unfold scalar. rewrite reward_three. field.
  - replace (18 / 10 - 4 / 10 * s2 - 2 / 10 * (s1 + s2 + s3))
      with (2 * (- (3 / 10)) * s2 + (18 / 10 - 2 / 10 * (s1 + s3))) by field.
    apply derivable_pt_lim_quadratic
      with (c := 12 / 10 * s1 + 2 * s3 - 1 / 10 * s1 ^ 2 - 5 / 10 * s3 ^ 2 -
                 1 / 10 * (s1 + s3) ^ 2).
    intros t. unfold scalar. rewrite reward_three. field.
  - replace (2 - s3 - 2 / 10 * (s1 + s2 + s3))
      with (2 * (- (6 / 10)) * s3 + (2 - 2 / 10 * (s1 + s2))) by field.
    apply derivable_pt_lim_quadratic
      with (c := 12 / 10 * s1 + 18 / 10 * s2 - 1 / 10 * s1 ^ 2 -
                 2 / 10 * s2 ^ 2 - 1 / 10 * (s1 + s2) ^ 2).
    intros t. unfold scalar. rewrite reward_three. field.
Qed.

(** A gradient is unique. *)
Lemma is_gradient_at_unique (f : list R -> option R) (g g' x : list R) :
  is_gradient_at f g x -> is_gradient_at f g' x -> g = g'.
Proof.
  intros (Hl & _ & Hd) (Hl' & _ & Hd').
  apply (nth_ext g g' 0 0); [congruence|].
  intros i Hi. rewrite Hl in Hi.
  eapply uniqueness_limite; [apply Hd | apply Hd']; exact Hi.
Qed.

(** X12: the objectives have these gradients, and no others, at every point
    of the right length: [cost] of the fencing cell the constant
    [[14, 8]], [cost] of the Lagrange cell [[2x, 4]], and [reward] the
    vector of [r_i - 2 v_i s_i - 2 v_total sum(s)]. *)
Theorem objective_gradients :
  (forall x y g, is_gradient_at Fencing.cost g [x; y] <-> g = [14; 8]) /\
  (forall x y g, is_gradient_at Lagrange.cost g [x; y] <-> g = [2 * x; 4]) /\
  (forall s1 s2 s3 g,
      is_gradient_at Portfolio.reward g [s1; s2; s3] <->
      g = [12 / 10 - 2 / 10 * s1 - 2 / 10 * (s1 + s2 + s3);
           18 / 10 - 4 / 10 * s2 - 2 / 10 * (s1 + s2 + s3);
           2 - s3 - 2 / 10 * (s1 + s2 + s3)]).
Proof.
  split; [|split]; intros; split; intros H.
  - eapply is_gradient_at_unique; [exact H | apply fencing_cost_gradient].
  - subst. apply fencing_cost_gradient.
  - eapply is_gradient_at_unique; [exact H | apply lagrange_cost_gradient].
  - subst. apply lagrange_cost_gradient.
  - eapply is_gradient_at_unique; [exact H | apply reward_gradient].
  - subst. apply reward_gradient.
Qed.

(** X13: the conditions of the method of Lagrange multipliers, written with
    the gradient of [cost] and the ['jac'] and ['fun'] entries of the
    dictionary (gradient plus multiplier times Jacobian row is zero, the
    constraint holds), have one solution: the point (2, 4) with the
    multiplier -4. *)
Theorem lagrange_multiplier_conditions :
  (is_gradient_at Lagrange.cost (scale (- -4) [1; 1]) [2; 4] /\
   jac Lagrange.ineq_cons [2; 4] = Some [[1; 1]] /\
   fun_ Lagrange.ineq_cons [2; 4] = Some [0]) /\
  forall x y lam g J,
    is_gradient_at Lagrange.cost g [x; y] ->
    jac Lagrange.ineq_cons [x; y] = Some [J] ->
    fun_ Lagrange.ineq_cons [x; y] = Some [0] ->
    g = scale (- lam) J ->
    x = 2 /\ y = 4 /\ lam = -4.
Proof.
  split.
  - split; [|split].
    + replace (scale (- -4) [1; 1]) with [2 * 2; 4]
        by (unfold scale; simpl; f_equal; [ring | f_equal; ring]).
      apply lagrange_cost_gradient.
    + reflexivity.
    + simpl. unfold Lagrange.constraint. simpl. do 2 f_equal. ring.
  - intros x y lam g J Hg HJ Hf Hk.
    pose proof (is_gradient_at_unique _ _ _ _ Hg (lagrange_cost_gradient x y))
      as Eg.
    simpl in HJ. inversion HJ; subst J. rewrite Eg in Hk.
    unfold scale in Hk. simpl in Hk. inversion Hk as [[H1 H2]].
    simpl in Hf. unfold Lagrange.constraint in Hf. simpl in Hf.
    inversion Hf as [H3]. repeat split; lra.
Qed.

(** X14: the multiplier conditions of the fencing problem (the gradient of
    [cost] is a multiple [mu] of the Jacobian row of the dictionary, the
    constraint value is non-negative and [mu] times it is zero), at
    non-negative sides, hold at the solution only, with the constraint
    active and a positive multiplier. *)
Theorem fencing_multiplier_conditions :
  (is_gradient_at Fencing.cost (scale (14 / fence_y) [fence_y; fence_x])
     [fence_x; fence_y] /\
   jac Fencing.ineq_cons [fence_x; fence_y] = Some [[fence_y; fence_x]] /\
   fun_ Fencing.ineq_cons [fence_x; fence_y] = Some [0]) /\
  forall x y mu g J a,
    0 <= x -> 0 <= y ->
    is_gradient_at Fencing.cost g [x; y] ->
    jac Fencing.ineq_cons [x; y] = Some [J] ->
    fun_ Fencing.ineq_cons [x; y] = Some [a] ->
    0 <= a -> mu * a = 0 ->
    g = scale mu J ->
    x = fence_x /\ y = fence_y /\ a = 0 /\ 0 < mu.
Proof.
  pose proof fence_area as Hxy.
  assert (Hx2 : fence_x * fence_x = 4 / 7 * 100) by (apply sqrt_sqrt; lra).
  assert (Hy2 : fence_y * fence_y = 7 / 4 * 100) by (apply sqrt_sqrt; lra).
  assert (Hfx : 0 <= fence_x) by apply sqrt_pos.
  assert (Hfy : 0 <= fence_y) by apply sqrt_pos.
  assert (Hfy0 : fence_y <> 0) by (intros E; rewrite E in Hy2; lra).
  split.
  - split; [|split].
    + replace (scale (14 / fence_y) [fence_y; fence_x]) with [14; 8].
      * apply fencing_cost_gradient.
      * unfold scale. simpl. f_equal; [field; exact Hfy0|].
        f_equal. apply (Rmult_eq_reg_r fence_y); [|exact Hfy0].
        replace (14 / fence_y * fence_x * fence_y) with (14 * fence_x)
          by (field; exact Hfy0).
        assert (Hz : (14 * fence_x - 8 * fence_y) *
                     (14 * fence_x - 8 * fence_y) = 0) by nra.
        destruct (Rmult_integral _ _ Hz); lra.
    + reflexivity.
    + simpl. unfold Fencing.area. simpl. rewrite Hxy. do 2 f_equal. ring.
  - intros x y mu g J a Hx Hy Hg HJ Hf Ha Hcs Hk.
    pose proof (is_gradient_at_unique _ _ _ _ Hg (fencing_cost_gradient x y))
      as Eg.
    simpl in HJ. inversion HJ; subst J. rewrite Eg in Hk.
    unfold scale in Hk. simpl in Hk. inversion Hk as [[H1 H2]].
    simpl in Hf. unfold Fencing.area in Hf. simpl in Hf.
    inversion Hf as [H3]. clear Hf HJ Hk Hg.
    assert (Hmu : 0 < mu) by nra.
    assert (Ha0 : a = 0) by nra.
    assert (Hp : x * y = 100) by lra.
    assert (Hl : 14 * x = 8 * y) by nra.
    assert (Hxx : x * x = 4 / 7 * 100) by nra.
    assert (Ex : x = fence_x).
    { destruct (Rtotal_order x fence_x) as [Hlt | [E | Hgt]];
        [exfalso; nra | exact E | exfalso; nra]. }
    assert (Hyy : y * y = 7 / 4 * 100) by nra.
    assert (Ey : y = fence_y).
    { destruct (Rtotal_order y fence_y) as [Hlt | [E | Hgt]];
        [exfalso; nra | exact E | exfalso; nra]. }
    split; [exact Ex|]. split; [exact Ey|]. split; [lra | exact Hmu].
Qed.

(** X15: the gradient of [reward] vanishes at one portfolio only,
    (37/27, 59/27, 29/27). *)
Theorem reward_stationary_point (s1 s2 s3 : R) (g : list R) :
  is_gradient_at Portfolio.reward g [s1; s2; s3] ->
  (g = [0; 0; 0] <-> [s1; s2; s3] = portfolio_best).
Proof.
  intros Hg.
  pose proof (is_gradient_at_unique _ _ _ _ Hg (reward_gradient s1 s2 s3)) as Eg.
  subst g. unfold portfolio_best. split; intros H; inversion H.
  - repeat f_equal; lra.
  - repeat f_equal; lra.
Qed.

Lemma reward_stationary_point_witness :
  [12 / 10 - 2 / 10 * 3 - 2 / 10 * (3 + 3 + 3);
   18 / 10 - 4 / 10 * 3 - 2 / 10 * (3 + 3 + 3);
   2 - 3 - 2 / 10 * (3 + 3 + 3)] = [0; 0; 0] <->
  [3; 3; 3] = portfolio_best.
Proof.
  exact (reward_stationary_point 3 3 3 _ (reward_gradient 3 3 3)).
Defined.

(** ** The shape of the profit curve *)

Lemma profit_difference (x y : R) :
  profit y - profit x = (y - x) * (1 - (x + y) / 15).
Proof. unfold profit. field. Qed.

(** X16: the profit curve rises strictly up to 7.5 and falls strictly after
    it, is symmetric about 7.5, and the profit is positive exactly for
    hours strictly between 0 and 15, where it is zero. *)
Theorem profit_shape :
  (forall x y, x < y -> y <= 75 / 10 -> profit x < profit y) /\
  (forall x y, 75 / 10 <= x -> x < y -> profit y < profit x) /\
  (forall d, profit (75 / 10 + d) = profit (75 / 10 - d)) /\
  (forall x, 0 < profit x <-> 0 < x < 15) /\
  (forall x, profit x = 0 <-> x = 0 \/ x = 15).
Proof.
  split; [|split; [|split; [|split]]].
  - intros x y Hxy Hy. pose proof (profit_difference x y) as H.
    assert (0 < (y - x) * (1 - (x + y) / 15)) by (apply Rmult_lt_0_compat; lra).
    lra.
  - intros x y Hx Hxy. pose proof (profit_difference y x) as H.
    assert (0 < (y - x) * ((x + y) / 15 - 1)) by (apply Rmult_lt_0_compat; lra).
    lra.
  - intros d. unfold profit. field.
  - intros x. assert (E : profit x = x * (15 - x) / 15) by (unfold profit; field).
    rewrite E. split; intros H.
    + destruct (Rle_dec x 0); [exfalso; nra|].
      destruct (Rle_dec 15 x); [exfalso; nra|]. lra.
    + assert (0 < x * (15 - x)) by (apply Rmult_lt_0_compat; lra). lra.
  - intros x. assert (E : profit x = x * (15 - x) / 15) by (unfold profit; field).
    rewrite E. split; intros H.
    + assert (Hz : x * (15 - x) = 0) by lra.
      destruct (Rmult_integral _ _ Hz); [left | right]; lra.
    + destruct H; subst; field.
Qed.

Lemma profit_shape_witness : profit 3 < profit 7.
Proof.
  apply (proj1 profit_shape 3 7); lra.
Defined.

(** The conditions at work on the points they single out. *)
Lemma lagrange_multiplier_conditions_witness :
  2 = 2 /\ 4 = 4 /\ - 4 = -4.
Proof.
  destruct lagrange_multiplier_conditions as [(Hg & HJ & Hf) Huniq].
  exact (Huniq 2 4 (- 4) _ [1; 1] Hg HJ Hf eq_refl).
Defined.

Lemma fencing_multiplier_conditions_witness :
  fence_x = fence_x /\ fence_y = fence_y /\ 0 = 0 /\ 0 < 14 / fence_y.
Proof.
  destruct fencing_multiplier_conditions as [(Hg & HJ & Hf) Huniq].
  apply (Huniq fence_x fence_y (14 / fence_y)
           (scale (14 / fence_y) [fence_y; fence_x]) [fence_y; fence_x] 0).
  - apply sqrt_pos.
  - apply sqrt_pos.
  - exact Hg.
  - exact HJ.
  - exact Hf.
  - lra.
  - ring.
  - reflexivity.
Defined.
